(** * Music Event Finder frontend: the API client and its URL sanitizer

    A shallow embedding of the API client module (the [ApiClient] class,
    the mock datasets and [normalizeExternalUrl]) together with the
    properties the specification states about them.

    Conventions of the embedding
    - a JavaScript string is the list of its UTF-16 code units ([jsstring]);
    - an [async] method is a function from the state of the outside world to
      a result and a new state; a result is a value or a thrown exception;
    - the outside world (network and server) is a parameter: an arbitrary
      state type [W] and an arbitrary transition [fetch];
    - the body of a response has the type the TypeScript signature declares
      for it ([fetchJson<T>] casts without checking);
    - a JavaScript [Map] is an association list in insertion order. *)

From Stdlib Require Import String Ascii DecimalString.
From Stdlib Require Import NArith ZArith Arith Bool List Sorted Lia.
Import ListNotations.

Local Open Scope list_scope.

(** ** JavaScript strings *)

Module JsString.

Definition jsstring := list N.

(** A source literal (ASCII only in this program) as code units. *)
Definition js (s : string) : jsstring :=
  map N_of_ascii (list_ascii_of_string s).

(** [a === b] on strings *)
Fixpoint eqb (a b : jsstring) : bool :=
  match a, b with
  | [], [] => true
  | x :: a', y :: b' => (x =? y)%N && eqb a' b'
  | _, _ => false
  end.

(** ECMAScript [WhiteSpace] and [LineTerminator] code points, the set
    [String.prototype.trim] strips. *)
Definition isWhiteSpace (c : N) : bool :=
  match c with
  | 9 | 10 | 11 | 12 | 13 | 32 | 160 => true
  | 5760 | 8232 | 8233 | 8239 | 8287 | 12288 | 65279 => true
  | _ => (8192 <=? c) && (c <=? 8202)
  end%N.

Fixpoint trimStart (s : jsstring) : jsstring :=
  match s with
  | c :: s' => if isWhiteSpace c then trimStart s' else s
  | [] => []
  end.

Definition trimEnd (s : jsstring) : jsstring := rev (trimStart (rev s)).

Definition trim (s : jsstring) : jsstring := trimEnd (trimStart s).

(** [Canonicalize] of a regular expression with the [i] flag and without
    the [u] flag, on the only inputs that can meet an ASCII pattern
    character: an ASCII letter is upper-cased, every other ASCII unit is
    itself, and a unit from 128 on never canonicalizes to an ASCII unit,
    so it is left as it is. *)
Definition canonicalize (c : N) : N :=
  if ((97 <=? c) && (c <=? 122))%N then (c - 32)%N else c.

(** The regular expressions of this program: a sequence of characters,
    each one required or optional ([?]), anchored at the start ([^]). *)
Inductive atom : Type :=
  | Chr (c : N)
  | Opt (c : N).

Definition chrs (s : string) : list atom := map Chr (js s).

Fixpoint matchStart (re : list atom) (s : jsstring) : bool :=
  match re with
  | [] => true
  | Chr c :: re' =>
      match s with
      | x :: s' => (canonicalize c =? canonicalize x)%N && matchStart re' s'
      | [] => false
      end
  | Opt c :: re' =>
      match s with
      | x :: s' =>
          ((canonicalize c =? canonicalize x)%N && matchStart re' s')
          || matchStart re' s
      | [] => matchStart re' s
      end
  end.

(** [/^https?:\/\//i] *)
Definition re_http : list atom :=
  chrs "http" ++ [Opt 115%N] ++ chrs "://".

(** [/^(javascript:|data:)/i], one list per alternative *)
Definition re_dangerous : list (list atom) :=
  [chrs "javascript:"; chrs "data:"].

Definition test_alt (alts : list (list atom)) (s : jsstring) : bool :=
  existsb (fun re => matchStart re s) alts.

(** ASCII lower-casing, used to state case-insensitive prefixes. *)
Definition asciiLower (c : N) : N :=
  if ((65 <=? c) && (c <=? 90))%N then (c + 32)%N else c.

(** A pattern character that is not an upper-case letter. *)
Definition plain (c : N) : Prop := (c < 65 \/ 90 < c)%N.

(** [s] starts with the ASCII text [p], letter case ignored. *)
Definition startsWithCI (p : string) (s : jsstring) : Prop :=
  exists pre rest, s = pre ++ rest /\ map asciiLower pre = js p.

End JsString.
Import JsString.

(** ** [normalizeExternalUrl]

    [raw?: string]: [None] is [undefined]; the result [None] is [null]. *)
Definition normalizeExternalUrl (raw : option jsstring) : option jsstring :=
  match raw with
  | None => None
  | Some [] => None
  | Some raw =>
      let trimmed := trim raw in
      match trimmed with
      | [] => None
      | _ =>
          if matchStart re_http trimmed then Some trimmed
          else if test_alt re_dangerous trimmed then None
          else Some (js "https://" ++ trimmed)
      end
  end.

(** ** Data model *)

Module Artist.
Record t : Type := mk {
  id : jsstring;
  name : jsstring;
  popularity : Z;
  followers : Z;
  genres : jsstring;
  image_url : jsstring
}.
End Artist.

Module Event.
Record t : Type := mk {
  id : jsstring;
  name : jsstring;
  date : jsstring;
  venue : jsstring;
  city : jsstring;
  url : jsstring;
  image : jsstring
}.
End Event.

Record Stats : Type := mkStats {
  artists : Z;
  events : Z
}.

(** The body of [GET /health]; a field the JSON lacks reads [undefined]. *)
Record HealthBody : Type := mkHealthBody {
  body_status : option jsstring;
  body_message : option jsstring
}.

(** What [checkHealth] returns. *)
Record Health : Type := mkHealth {
  status : jsstring;
  message : jsstring
}.

Definition API_BASE_URL : jsstring := js "http://localhost:8080".

(** Template literal of an integer: its decimal digits. *)
Definition numToString (n : Z) : jsstring :=
  js (NilZero.string_of_int (Z.to_int n)).

Definition natToString (n : nat) : jsstring := numToString (Z.of_nat n).

(** *** Mock data as fallback *)

Definition mockArtists : list Artist.t :=
  [ Artist.mk (js "1") (js "Arctic Monkeys") 85 12000000
      (js "indie rock, alternative rock") (js "/arctic-monkeys.jpg");
    Artist.mk (js "2") (js "Tame Impala") 82 8500000
      (js "psychedelic rock, indie pop") (js "/tame-impala.jpg");
    Artist.mk (js "3") (js "The Strokes") 78 6200000
      (js "indie rock, garage rock") (js "/the-strokes.jpg");
    Artist.mk (js "4") (js "Mac DeMarco") 75 4100000
      (js "indie pop, lo-fi") (js "/mac-demarco.jpg") ].

Definition mockEvents : list Event.t :=
  [ Event.mk (js "1") (js "Arctic Monkeys World Tour")
      (js "2024-03-15T20:00:00Z") (js "Madison Square Garden")
      (js "New York, NY") (js "https://example.com/tickets/1")
      (js "/arctic-monkeys-concert.jpg");
    Event.mk (js "2") (js "Tame Impala: Currents Tour")
      (js "2024-03-22T19:30:00Z") (js "The Forum")
      (js "Los Angeles, CA") (js "https://example.com/tickets/2")
      (js "/tame-impala-concert.jpg") ].

(** ** Exceptions, results and the network *)

Inductive exn : Type :=
  | TypeError (message : jsstring)   (* [fetch] rejects: network failure *)
  | TimeoutError                     (* [AbortSignal.timeout(5000)] fired *)
  | SyntaxError                      (* [response.json()] rejects *)
  | URIError                         (* [encodeURIComponent] *)
  | Error (message : jsstring).      (* [new Error(message)] *)

Inductive result (A : Type) : Type :=
  | Ok (a : A)
  | Throw (e : exn).
Arguments Ok {A} a.
Arguments Throw {A} e.

Definition isThrow {A} (r : result A) : bool :=
  match r with Throw _ => true | Ok _ => false end.

(** The declared type parameter of each [fetchJson<T>] call site. *)
Inductive ty : Type :=
  | THealth | TStats | TArtists | TEvents | TArtist | TEvent.

Definition resp (t : ty) : Type :=
  match t with
  | THealth => HealthBody
  | TStats => Stats
  | TArtists => list Artist.t
  | TEvents => list Event.t
  | TArtist => Artist.t
  | TEvent => Event.t
  end.

(** How the promise of [fetch] settles: it rejects, or it resolves with a
    response that has a status and a body ([json] is how
    [response.json()] settles). *)
Inductive FetchResult (T : Type) : Type :=
  | Rejected (e : exn)
  | Response (status : N) (json : result T).
Arguments Rejected {T} e.
Arguments Response {T} status json.

(** [response.ok] *)
Definition ok (status : N) : bool := ((200 <=? status) && (status <=? 299))%N.

(** One request and how [fetchJson] settled on it; the client keeps no
    such record, the model does, to state what was requested and
    received. *)
Record Exchange : Type := mkExchange {
  ex_url : jsstring;
  ex_ty : ty;
  ex_res : result (resp ex_ty)
}.

(** The events a request delivered ([[]] when it delivered none). *)
Definition delivered (x : Exchange) : list Event.t :=
  match x with
  | mkExchange _ TEvents (Ok data) => data
  | _ => []
  end.

(** ** The insertion-ordered [Map] *)

Module JsMap.
Section JsMap.
Context {V : Type}.

Definition t := list (jsstring * V).

Definition has (m : t) (k : jsstring) : bool :=
  existsb (fun kv => eqb (fst kv) k) m.

(** [set] keeps the position of a key that is already there. *)
Fixpoint set (m : t) (k : jsstring) (v : V) : t :=
  match m with
  | [] => [(k, v)]
  | (k', v') :: m' => if eqb k' k then (k', v) :: m' else (k', v') :: set m' k v
  end.

Definition size (m : t) : nat := length m.

Definition keys (m : t) : list jsstring := map fst m.

Definition values (m : t) : list V := map snd m.

(** [new Map(entries)] *)
Definition ofEntries (entries : list (jsstring * V)) : t :=
  fold_left (fun m kv => set m (fst kv) (snd kv)) entries [].

End JsMap.
Arguments t V : clear implicits.
End JsMap.

(** ** Asynchronous computations

    A computation runs from a state, settles with a value or an exception
    and leaves a state; [await] is [bind], [try { m } catch (e) { h e }] is
    [try_catch]. *)

Definition M (S A : Type) : Type := S -> result A * S.

Definition ret {S A} (a : A) : M S A := fun s => (Ok a, s).

Definition throw {S A} (e : exn) : M S A := fun s => (Throw e, s).

Definition bind {S A B} (m : M S A) (k : A -> M S B) : M S B :=
  fun s =>
    match m s with
    | (Ok a, s') => k a s'
    | (Throw e, s') => (Throw e, s')
    end.

Definition try_catch {S A} (m : M S A) (h : exn -> M S A) : M S A :=
  fun s =>
    match m s with
    | (Ok a, s') => (Ok a, s')
    | (Throw e, s') => h e s'
    end.

(** A synchronous call that may throw. *)
Definition call {S A} (r : result A) : M S A := fun s => (r, s).

Declare Scope async_scope.
Delimit Scope async_scope with async.
Notation "x <- m ;; k" := (bind m (fun x => k))
  (at level 61, m at next level, right associativity) : async_scope.
Notation "'try' m 'catch' h" := (try_catch m h)
  (at level 62, m at level 61, h at level 61) : async_scope.

(** ** Array and string built-ins the client uses *)

(** [arr.slice(0, end)] for an integer [end]. *)
Definition slice0 {A} (arr : list A) (e : Z) : list A :=
  let len := Z.of_nat (length arr) in
  let final := if (e <? 0)%Z then Z.max (len + e) 0 else Z.min e len in
  firstn (Z.to_nat final) arr.

Fixpoint startsWith (s p : jsstring) : bool :=
  match p, s with
  | [], _ => true
  | c :: p', x :: s' => (c =? x)%N && startsWith s' p'
  | _ :: _, [] => false
  end.

(** [s.includes(sub)] *)
Fixpoint includes (s sub : jsstring) : bool :=
  startsWith s sub ||
  match s with
  | [] => false
  | _ :: s' => includes s' sub
  end.

(** [a || b] on strings, [a] possibly [undefined]. *)
Definition orElse (a : option jsstring) (b : jsstring) : jsstring :=
  match a with
  | Some (c :: s) => c :: s
  | _ => b
  end.

(** ** The client *)

Module ApiClient.
Section Methods.

(** The outside world: its states and how a [GET] on a URL, whose body is
    read at type [t], settles and changes it. *)
Variable W : Type.
Variable fetch : forall t : ty, jsstring -> W -> FetchResult (resp t) * W.

(** Platform built-ins: [encodeURIComponent] throws [URIError] on a lone
    surrogate; [String.prototype.toLowerCase]. *)
Variable encodeURIComponent : jsstring -> result jsstring.
Variable toLowerCase : jsstring -> jsstring.

Record St : Type := mkSt {
  world : W;
  log : list Exchange
}.

Local Open Scope async_scope.

(** [fetchJson]: its own [catch] logs and rethrows, which leaves the
    outcome as it is. *)
Definition fetchJson (t : ty) (endpoint : jsstring) : M St (resp t) :=
  fun st =>
    let url := API_BASE_URL ++ endpoint in
    let (response, w') := fetch t url (world st) in
    let settled :=
      match response with
      | Rejected e => Throw e
      | Response status json =>
          if negb (ok status)
          then Throw (Error (js "HTTP error! status: " ++ numToString (Z.of_N status)))
          else json
      end in
    (settled, mkSt w' (log st ++ [mkExchange url t settled])).

Definition checkHealth : M St Health :=
  try
    (response <- fetchJson THealth (js "/health") ;;
     ret (mkHealth (js "connected")
            (orElse (body_message response) (js "Backend is healthy"))))
  catch (fun _ =>
    ret (mkHealth (js "disconnected") (js "Java backend not accessible"))).

Definition getStats : M St Stats :=
  try (fetchJson TStats (js "/stats"))
  catch (fun _ =>
    ret (mkStats (Z.of_nat (length mockArtists)) (Z.of_nat (length mockEvents)))).

(** [limit = 20]: [None] is the omitted argument. *)
Definition getTopArtists (limit : option Z) : M St (list Artist.t) :=
  let limit := match limit with Some l => l | None => 20%Z end in
  try (fetchJson TArtists (js "/artists/top?limit=" ++ numToString limit))
  catch (fun _ => ret (slice0 mockArtists limit)).

Definition getTopEvents (limit : option Z) : M St (list Event.t) :=
  let limit := match limit with Some l => l | None => 20%Z end in
  try (fetchJson TEvents (js "/events/top?limit=" ++ numToString limit))
  catch (fun _ => ret (slice0 mockEvents limit)).

Definition getArtist (id : jsstring) : M St Artist.t :=
  try (fetchJson TArtist (js "/artists/" ++ id))
  catch (fun _ =>
    match find (fun a => eqb (Artist.id a) id) mockArtists with
    | None => throw (Error (js "Artist not found"))
    | Some artist => ret artist
    end).

Definition getEvent (id : jsstring) : M St Event.t :=
  try (fetchJson TEvent (js "/events/" ++ id))
  catch (fun _ =>
    match find (fun e => eqb (Event.id e) id) mockEvents with
    | None => throw (Error (js "Event not found"))
    | Some event => ret event
    end).

Definition searchArtists (query : jsstring) : M St (list Artist.t) :=
  try
    (q <- call (encodeURIComponent query) ;;
     fetchJson TArtists (js "/artists/search?q=" ++ q))
  catch (fun _ =>
    ret (filter
           (fun artist =>
              includes (toLowerCase (Artist.name artist)) (toLowerCase query)
              || includes (toLowerCase (Artist.genres artist)) (toLowerCase query))
           mockArtists)).

Definition searchEvents (query : jsstring) : M St (list Event.t) :=
  try
    (q <- call (encodeURIComponent query) ;;
     fetchJson TEvents (js "/events/search?q=" ++ q))
  catch (fun _ =>
    ret (filter
           (fun event =>
              includes (toLowerCase (Event.name event)) (toLowerCase query)
              || includes (toLowerCase (Event.venue event)) (toLowerCase query)
              || includes (toLowerCase (Event.city event)) (toLowerCase query))
           mockEvents)).

(** *** [getAllArtists] *)

Definition artistLimits : list nat := [50; 100; 250; 500].

(** The [for (const limit of limits)] loop; [last] is the variable of
    that name. A body read at [Artist[]] is an array. *)
Fixpoint artistsLoop (limits : list nat) (last : list Artist.t)
  : M St (list Artist.t) :=
  match limits with
  | [] => ret last
  | limit :: rest =>
      data <- fetchJson TArtists (js "/artists/top?limit=" ++ natToString limit) ;;
      if length data <? limit then ret data else artistsLoop rest data
  end.

Definition getAllArtists : M St (list Artist.t) :=
  try (artistsLoop artistLimits [])
  catch (fun _ => ret mockArtists).

(** *** [getAllEvents] *)

Definition directLimits : list nat := [500; 400; 300; 250; 200].

Definition maxTotal : nat := 1000.

(** How the first loop is left: by [return data], or by [break] or
    exhaustion with the current [base]. *)
Inductive probe : Type :=
  | Returned (data : list Event.t)
  | Base (base : list Event.t).

(** One iteration of the first loop: [None] is [continue]. *)
Definition probeStep (limit : nat) : M St (option probe) :=
  try
    (data <- fetchJson TEvents (js "/events/top?limit=" ++ natToString limit) ;;
     if length data <? limit then ret (Some (Returned data))
     else ret (Some (Base data)))
  catch (fun _ => ret None).

Fixpoint directProbe (limits : list nat) (base : list Event.t) : M St probe :=
  match limits with
  | [] => ret (Base base)
  | limit :: rest =>
      r <- probeStep limit ;;
      match r with
      | Some p => ret p
      | None => directProbe rest base
      end
  end.

Definition collected := JsMap.t Event.t.

(** [merge] *)
Definition merge (collectedMap : collected) (arr : list Event.t) : collected :=
  fold_left
    (fun m ev => if JsMap.has m (Event.id ev) then m else JsMap.set m (Event.id ev) ev)
    arr collectedMap.

(** [Math.min(base.length, 200) || 200] *)
Definition pageSizeOf (base : list Event.t) : nat :=
  let m := Nat.min (length base) 200 in
  if m =? 0 then 200 else m.

Record Strategy : Type := mkStrategy {
  name : jsstring;
  buildUrl : nat -> jsstring
}.

Definition strategies (pageSize : nat) : list Strategy :=
  [ mkStrategy (js "offset")
      (fun i => js "/events/top?limit=" ++ natToString pageSize
                  ++ js "&offset=" ++ natToString (i * pageSize));
    mkStrategy (js "page0")
      (fun i => js "/events/top?limit=" ++ natToString pageSize
                  ++ js "&page=" ++ natToString i);
    mkStrategy (js "page1")
      (fun i => js "/events/top?limit=" ++ natToString pageSize
                  ++ js "&page=" ++ natToString (i + 1)) ].

(** The values of [i] in [for (let i = 1; i < 10; i++)]. *)
Definition pageIndices : list nat := seq 1 9.

(** One iteration of the inner loop on the variables [collectedMap] and
    [success]; the boolean says whether the loop goes on ([false] is
    [break]). *)
Definition pageStep (strat : Strategy) (pageSize i : nat)
    (collectedMap : collected) (success : bool)
  : M St (collected * bool * bool) :=
  try
    (chunk <- fetchJson TEvents (buildUrl strat i) ;;
     if length chunk =? 0 then ret (collectedMap, success, false)
     else
       let before := JsMap.size collectedMap in
       let collectedMap := merge collectedMap chunk in
       let after := JsMap.size collectedMap in
       if after =? before then ret (collectedMap, success, false)
       else if length chunk <? pageSize then ret (collectedMap, true, false)
       else if maxTotal <=? JsMap.size collectedMap then ret (collectedMap, true, false)
       else ret (collectedMap, true, true))
  catch (fun _ => ret (collectedMap, success, false)).

Fixpoint pageLoop (strat : Strategy) (pageSize : nat) (indices : list nat)
    (collectedMap : collected) (success : bool)
  : M St (collected * bool) :=
  match indices with
  | [] => ret (collectedMap, success)
  | i :: rest =>
      r <- pageStep strat pageSize i collectedMap success ;;
      let '(collectedMap, success, goOn) := r in
      if goOn then pageLoop strat pageSize rest collectedMap success
      else ret (collectedMap, success)
  end.

(** The [for (const strat of strategies)] loop; it yields the map and
    [strategyUsed]. *)
Fixpoint tryStrategies (strats : list Strategy) (pageSize : nat)
    (collectedMap : collected)
  : M St (collected * option jsstring) :=
  match strats with
  | [] => ret (collectedMap, None)
  | strat :: rest =>
      r <- pageLoop strat pageSize pageIndices collectedMap false ;;
      let '(collectedMap, success) := r in
      if success then ret (collectedMap, Some (name strat))
      else tryStrategies rest pageSize collectedMap
  end.

(** What follows the first loop when it is left with [base]. *)
Definition paginate (base : list Event.t) : M St (list Event.t) :=
  if length base =? 0 then ret mockEvents
  else
    let pageSize := pageSizeOf base in
    let collectedMap : collected :=
      JsMap.ofEntries (map (fun e => (Event.id e, e)) base) in
    if maxTotal <=? JsMap.size collectedMap then ret (JsMap.values collectedMap)
    else
      r <- tryStrategies (strategies pageSize) pageSize collectedMap ;;
      ret (JsMap.values (fst r)).

Definition getAllEvents : M St (list Event.t) :=
  try
    (p <- directProbe directLimits [] ;;
     match p with
     | Returned data => ret data
     | Base base => paginate base
     end)
  catch (fun _ => ret mockEvents).

(** *** Notions the properties are stated with *)

(** A value was returned, no exception thrown. *)
Definition returns {A} (r : result A * St) : Prop :=
  exists a s', r = (Ok a, s').

(** What [checkHealth] answers on failure. *)
Definition disconnected : Health :=
  mkHealth (js "disconnected") (js "Java backend not accessible").

(** The requests for the sizes [limits], issued in this order from [s],
    all throw and leave the state [s']. *)
Inductive probeFails : list nat -> St -> St -> Prop :=
  | probeFails_nil s : probeFails [] s s
  | probeFails_cons limit rest s e s1 s' :
      fetchJson TEvents (js "/events/top?limit=" ++ natToString limit) s
        = (Throw e, s1) ->
      probeFails rest s1 s' ->
      probeFails (limit :: rest) s s'.

(** The requests for the sizes [limits], issued in this order from [s],
    all deliver at least as many artists as asked for and leave [s']. *)
Inductive fullPages : list nat -> St -> St -> Prop :=
  | fullPages_nil s : fullPages [] s s
  | fullPages_cons limit rest s data s1 s' :
      fetchJson TArtists (js "/artists/top?limit=" ++ natToString limit) s
        = (Ok data, s1) ->
      limit <= length data ->
      fullPages rest s1 s' ->
      fullPages (limit :: rest) s s'.

End Methods.

Arguments mkSt {W} world log.
Arguments world {W} s.
Arguments log {W} s.
Arguments returns {W A} r.

End ApiClient.
Import ApiClient.

(** ** Notions the properties are stated with *)

(** The identifiers of a list, each kept at its first occurrence. *)
Fixpoint firstSeen (l : list jsstring) : list jsstring :=
  match l with
  | [] => []
  | x :: l' => x :: filter (fun y => negb (eqb y x)) (firstSeen l')
  end.

Definition eventIds (l : list Event.t) : list jsstring := map Event.id l.

(** Every key of the map is the identifier of its event. *)
Definition keyed (m : collected) : Prop :=
  Forall (fun kv => Event.id (snd kv) = fst kv) m.

(** ** Servers and platforms of the examples *)

Module Scenario.

(** A network that refuses every connection. *)
Definition offline (t : ty) (_ : jsstring) (w : unit)
  : FetchResult (resp t) * unit :=
  (Rejected (TypeError (js "Failed to fetch")), w).

(** A server whose [k]-th answer to an events request is the [k]-th
    entry of a script; the state counts the requests. *)
Definition scriptedEvents (script : list (FetchResult (list Event.t)))
    (t : ty) (_ : jsstring) (k : nat)
  : FetchResult (resp t) * nat :=
  (match t return FetchResult (resp t) with
   | TEvents => nth k script (Rejected TimeoutError)
   | _ => Rejected TimeoutError
   end, S k).

(** The same for artists requests. *)
Definition scriptedArtists (script : list (FetchResult (list Artist.t)))
    (t : ty) (_ : jsstring) (k : nat)
  : FetchResult (resp t) * nat :=
  (match t return FetchResult (resp t) with
   | TArtists => nth k script (Rejected TimeoutError)
   | _ => Rejected TimeoutError
   end, S k).

(** A health endpoint that always answers with the given status and body. *)
Definition healthy (status : N) (body : HealthBody)
    (t : ty) (_ : jsstring) (w : unit)
  : FetchResult (resp t) * unit :=
  (match t return FetchResult (resp t) with
   | THealth => Response status (Ok body)
   | _ => Rejected TimeoutError
   end, w).

Definition event (n : nat) : Event.t :=
  Event.mk (natToString n) (js "Show") (js "2024-01-01T00:00:00Z")
    (js "Hall") (js "Lima") (js "example.com") (js "/show.jpg").

Definition artist (n : nat) : Artist.t :=
  Artist.mk (natToString n) (js "Band") 50 1000 (js "rock") (js "/band.jpg").

(** [count] events with the identifiers [start], [start + 1], ... *)
Definition eventsFrom (start count : nat) : list Event.t :=
  map event (seq start count).

Definition artistsFrom (start count : nat) : list Artist.t :=
  map artist (seq start count).

Definition page {T} (items : list T) : FetchResult (list T) :=
  Response 200 (Ok items).

(** Built-ins restricted to ASCII text. *)
Definition encodeAscii (s : jsstring) : result jsstring := Ok s.
Definition lowerAscii (s : jsstring) : jsstring := map asciiLower s.

Definition start {W} (w : W) : St W := mkSt w [].

(** The value of a result, if it has one. *)
Definition value {A} (r : result A) : option A :=
  match r with Ok a => Some a | Throw _ => None end.

(** A server with many events that never sends more than it is asked
    for: 500 for [limit=500], then pages of 200. *)
Definition truncating :=
  scriptedEvents
    [ page (eventsFrom 0 500); page (eventsFrom 500 200);
      page (eventsFrom 700 200); page (eventsFrom 900 200);
      page (eventsFrom 1100 200) ].

(** A server that fails the first artists request with status 500 and
    would answer the next one. *)
Definition failsOnce :=
  scriptedArtists [ Response 500 (Ok []); page (artistsFrom 0 3) ].

(** A server that times out once and then has three events. *)
Definition slowStart :=
  scriptedEvents [ Rejected TimeoutError; page (eventsFrom 0 3) ].

(** A server with sixty artists. *)
Definition sixtyArtists :=
  scriptedArtists [ page (artistsFrom 0 50); page (artistsFrom 0 60) ].

(** A server that has three events for every request. *)
Definition repeating :=
  scriptedEvents [ page (eventsFrom 0 3); page (eventsFrom 0 3) ].

(** A server that only accepts [limit=200] and whose second page
    overlaps the first. *)
Definition overlapping :=
  scriptedEvents
    [ Response 400 (Ok []); Response 400 (Ok []); Response 400 (Ok []);
      Response 400 (Ok []); page (eventsFrom 0 200);
      page (eventsFrom 100 200); page (eventsFrom 300 50) ].

(** A server that answers every events request with the same list. *)
Definition constant (data : list Event.t) (t : ty) (_ : jsstring) (w : unit)
  : FetchResult (resp t) * unit :=
  (match t return FetchResult (resp t) with
   | TEvents => page data
   | _ => Rejected TimeoutError
   end, w).

(** A server without events. *)
Definition emptyServer := scriptedEvents [ page [] ].

(** A server that only accepts [limit=200], rejects [offset] and a
    zero-based [page], and whose one-based pages each bring one new
    event. *)
Definition slowlyGrowing :=
  scriptedEvents
    ([ Response 400 (Ok []); Response 400 (Ok []); Response 400 (Ok []);
       Response 400 (Ok []); page (eventsFrom 0 200);
       Response 400 (Ok []); Response 400 (Ok []) ]
     ++ map (fun k => page (eventsFrom k 200)) (seq 1 9)).

(** An encoder that, like [encodeURIComponent], throws on a surrogate
    code unit that stands alone; here every surrogate counts as alone. *)
Definition encodeStrict (s : jsstring) : result jsstring :=
  if existsb (fun c => (55296 <=? c) && (c <=? 57343))%N s
  then Throw URIError else Ok s.

End Scenario.

(** The artists a request delivered ([[]] when it delivered none). *)
Definition deliveredArtists (x : Exchange) : list Artist.t :=
  match x with
  | mkExchange _ TArtists (Ok data) => data
  | _ => []
  end.

(** ** The event link of the event cards

    The [href] of "View Event", written inline in both event grids. *)
Definition eventHref (url : jsstring) : jsstring :=
  match url with
  | [] => js "#"
  | _ =>
      let trimmed := trim url in
      match trimmed with
      | [] => js "#"
      | _ =>
          if startsWith trimmed (js "http://")
             || startsWith trimmed (js "https://")
          then trimmed
          else js "https://" ++ trimmed
      end
  end.

(** [sub] occurs in [s]. *)
Definition occursIn (sub s : jsstring) : Prop :=
  exists pre post, s = pre ++ sub ++ post.

(** ** The event list component

    The state variables of [EventList] and its two handlers. A handler
    runs on the state of the outside world and on the state variables;
    [setX(v)] assigns the variable; [events] in a handler is the value
    the variable has when the handler starts. *)

Module EventList.

Record state : Type := mkState {
  events : list Event.t;
  filteredEvents : list Event.t;
  searchQuery : jsstring;
  loading : bool;
  searchLoading : bool;
  isBackendConnected : bool
}.

(** [useState] initial values *)
Definition initial : state :=
  mkState [] [] [] true false false.

Definition setEvents v (c : state) : state :=
  mkState v (filteredEvents c) (searchQuery c) (loading c) (searchLoading c)
    (isBackendConnected c).
Definition setFilteredEvents v (c : state) : state :=
  mkState (events c) v (searchQuery c) (loading c) (searchLoading c)
    (isBackendConnected c).
Definition setSearchQuery v (c : state) : state :=
  mkState (events c) (filteredEvents c) v (loading c) (searchLoading c)
    (isBackendConnected c).
Definition setLoading v (c : state) : state :=
  mkState (events c) (filteredEvents c) (searchQuery c) v (searchLoading c)
    (isBackendConnected c).
Definition setSearchLoading v (c : state) : state :=
  mkState (events c) (filteredEvents c) (searchQuery c) (loading c) v
    (isBackendConnected c).
Definition setIsBackendConnected v (c : state) : state :=
  mkState (events c) (filteredEvents c) (searchQuery c) (loading c)
    (searchLoading c) v.

Section Handlers.

Variable W : Type.
Variable fetch : forall t : ty, jsstring -> W -> FetchResult (resp t) * W.
Variable encodeURIComponent : jsstring -> result jsstring.
Variable toLowerCase : jsstring -> jsstring.

Local Open Scope async_scope.

Definition C : Type := (St W * state)%type.

(** A call of a method of [apiClient]. *)
Definition api {A} (m : M (St W) A) : M C A :=
  fun sc =>
    let (r, s') := m (fst sc) in (r, (s', snd sc)).

(** A [setX] call. *)
Definition update (f : state -> state) : M C unit :=
  fun sc => (Ok tt, (fst sc, f (snd sc))).

Definition current : M C state := fun sc => (Ok (snd sc), sc).

(** [try { m } finally { f }] *)
Definition try_finally {A} (m : M C A) (f : M C unit) : M C A :=
  fun sc =>
    let (r, sc1) := m sc in
    match f sc1 with
    | (Ok _, sc2) => (r, sc2)
    | (Throw e, sc2) => (Throw e, sc2)
    end.

(** [loadEvents], the effect run on mount. *)
Definition loadEvents : M C unit :=
  try_finally
    (try
       (_ <- update (setLoading true) ;;
        health <- api (checkHealth W fetch) ;;
        _ <- update (setIsBackendConnected
                       (eqb (status health) (js "connected"))) ;;
        data <- api (getAllEvents W fetch) ;;
        _ <- update (setEvents data) ;;
        update (setFilteredEvents data))
     catch (fun _ =>
       _ <- update (setIsBackendConnected false) ;;
       mockData <- api (getAllEvents W fetch) ;;
       _ <- update (setEvents mockData) ;;
       update (setFilteredEvents mockData)))
    (update (setLoading false)).

Definition handleSearch (query : jsstring) : M C unit :=
  c <- current ;;
  _ <- update (setSearchQuery query) ;;
  match trim query with
  | [] => update (setFilteredEvents (events c))
  | _ =>
      try_finally
        (try
           (_ <- update (setSearchLoading true) ;;
            searchResults <-
              api (searchEvents W fetch encodeURIComponent toLowerCase query) ;;
            update (setFilteredEvents searchResults))
         catch (fun _ =>
           update
             (setFilteredEvents
                (filter
                   (fun event =>
                      includes (toLowerCase (Event.name event))
                        (toLowerCase query)
                      || includes (toLowerCase (Event.venue event))
                           (toLowerCase query)
                      || includes (toLowerCase (Event.city event))
                           (toLowerCase query))
                   (events c)))))
        (update (setSearchLoading false))
  end.

End Handlers.

End EventList.

(** * Properties *)

(** ** The URL sanitizer *)

Section Sanitizer.

Lemma canonicalize_lower (c x : N) :
  asciiLower c = c -> (c < 65 \/ 90 < c)%N ->
  (canonicalize c =? canonicalize x)%N = true <-> asciiLower x = c.
Proof.
  unfold canonicalize, asciiLower. intros _ Hc.
  rewrite N.eqb_eq.
  destruct (97 <=? c)%N eqn:A1; destruct (c <=? 122)%N eqn:A2;
  destruct (97 <=? x)%N eqn:B1; destruct (x <=? 122)%N eqn:B2;
  destruct (65 <=? x)%N eqn:C1; destruct (x <=? 90)%N eqn:C2; simpl;
  rewrite ?N.leb_le, ?N.leb_gt in *; lia.
Qed.

Lemma plain_lower c : plain c -> asciiLower c = c.
Proof.
  unfold plain, asciiLower. intros H.
  destruct (65 <=? c)%N eqn:A; destruct (c <=? 90)%N eqn:B; simpl; auto.
  rewrite N.leb_le in *. lia.
Qed.

Lemma matchStart_Chr_app (p : jsstring) (re : list atom) :
  Forall plain p ->
  forall s, matchStart (map Chr p ++ re) s = true <->
            exists pre rest, s = pre ++ rest /\ map asciiLower pre = p
                             /\ matchStart re rest = true.
Proof.
  induction 1 as [|c p Hc Hp IH]; intros s; simpl.
  - split.
    + intros H. exists [], s. auto.
    + intros (pre & rest & -> & Hpre & H).
      destruct pre; [assumption | discriminate].
  - destruct s as [|x s].
    + split; [discriminate|].
      intros (pre & rest & E & Hpre & _).
      destruct pre; [discriminate | discriminate].
    + rewrite andb_true_iff, IH, canonicalize_lower by auto using plain_lower.
      split.
      * intros (Hx & pre & rest & -> & Hpre & H).
        exists (x :: pre), rest. simpl. rewrite Hx, Hpre. auto.
      * intros (pre & rest & E & Hpre & H).
        destruct pre as [|y pre]; [discriminate|].
        simpl in E, Hpre. injection E as E1 E2. injection Hpre as Hx Hpre.
        subst y s. split; [assumption|]. exists pre, rest. auto.
Qed.

Lemma matchStart_chrs (p : string) (s : jsstring) :
  Forall plain (js p) ->
  matchStart (chrs p) s = true <-> startsWithCI p s.
Proof.
  intros Hp. unfold chrs, startsWithCI.
  rewrite <- (app_nil_r (map Chr (js p))), matchStart_Chr_app by assumption.
  split.
  - intros (pre & rest & E & Hpre & _). exists pre, rest. auto.
  - intros (pre & rest & E & Hpre). exists pre, rest. simpl. auto.
Qed.

Ltac plain_chars :=
  repeat (constructor; [unfold plain; simpl; lia|]); constructor.

Lemma matchStart_Opt (c : N) (re : list atom) (s : jsstring) :
  matchStart (Opt c :: re) s =
  match s with
  | x :: s' => (canonicalize c =? canonicalize x)%N && matchStart re s'
  | [] => false
  end || matchStart re s.
Proof. destruct s; reflexivity. Qed.

Lemma re_http_spec (s : jsstring) :
  matchStart re_http s = true <->
  startsWithCI "http://" s \/ startsWithCI "https://" s.
Proof.
  unfold re_http, chrs. rewrite matchStart_Chr_app by plain_chars.
  change ([Opt 115%N] ++ map Chr (js "://")) with (Opt 115%N :: chrs "://").
  split.
  - intros (pre & rest & -> & Hpre & H).
    rewrite matchStart_Opt in H. apply orb_true_iff in H. destruct H as [H|H].
    + destruct rest as [|x rest]; [discriminate|].
      apply andb_true_iff in H. destruct H as [Hx H].
      apply canonicalize_lower in Hx; [|reflexivity|unfold plain; lia].
      apply matchStart_chrs in H; [|plain_chars].
      destruct H as (pre' & rest' & -> & Hpre').
      right. exists (pre ++ x :: pre'), rest'.
      split; [now rewrite <- app_assoc|].
      rewrite map_app. simpl. now rewrite Hpre, Hx, Hpre'.
    + apply matchStart_chrs in H; [|plain_chars].
      destruct H as (pre' & rest' & E & Hpre').
      left. exists (pre ++ pre'), rest'.
      split; [now rewrite <- app_assoc, E|].
      rewrite map_app. now rewrite Hpre, Hpre'.
  - intros [(pre & rest & -> & Hpre)|(pre & rest & -> & Hpre)].
    + destruct pre as [|a1 [|a2 [|a3 [|a4 pre]]]]; try discriminate.
      injection Hpre as H1 H2 H3 H4 Hpre.
      exists [a1; a2; a3; a4], (pre ++ rest).
      split; [reflexivity|].
      split; [cbn [map]; rewrite H1, H2, H3, H4; reflexivity|].
      rewrite matchStart_Opt. apply orb_true_iff. right.
      apply matchStart_chrs; [plain_chars|]. exists pre, rest. auto.
    + destruct pre as [|a1 [|a2 [|a3 [|a4 [|a5 pre]]]]]; try discriminate.
      injection Hpre as H1 H2 H3 H4 H5 Hpre.
      exists [a1; a2; a3; a4], (a5 :: pre ++ rest).
      split; [reflexivity|].
      split; [cbn [map]; rewrite H1, H2, H3, H4; reflexivity|].
      rewrite matchStart_Opt. apply orb_true_iff. left.
      apply andb_true_iff. split.
      * apply canonicalize_lower; [reflexivity|unfold plain; lia|assumption].
      * apply matchStart_chrs; [plain_chars|]. exists pre, rest. auto.
Qed.

Lemma re_dangerous_spec (s : jsstring) :
  test_alt re_dangerous s = true <->
  startsWithCI "javascript:" s \/ startsWithCI "data:" s.
Proof.
  unfold test_alt, re_dangerous. cbn [existsb].
  rewrite orb_false_r, orb_true_iff.
  rewrite !matchStart_chrs by plain_chars. reflexivity.
Qed.

Lemma trimStart_nil (s : jsstring) :
  trimStart s = [] <-> forallb isWhiteSpace s = true.
Proof.
  induction s as [|c s IH]; simpl; [tauto|].
  destruct (isWhiteSpace c); simpl; [exact IH|].
  split; discriminate.
Qed.

Lemma trimStart_idem (s : jsstring) : trimStart (trimStart s) = trimStart s.
Proof.
  induction s as [|c s IH]; simpl; [reflexivity|].
  destruct (isWhiteSpace c) eqn:E; [exact IH|]. simpl. now rewrite E.
Qed.

Lemma forallb_rev {A} (f : A -> bool) (l : list A) :
  forallb f (rev l) = forallb f l.
Proof.
  induction l as [|a l IH]; simpl; [reflexivity|].
  rewrite forallb_app, IH. simpl. rewrite andb_true_r. apply andb_comm.
Qed.

Lemma trim_nil (s : jsstring) :
  trim s = [] <-> forallb isWhiteSpace s = true.
Proof.
  unfold trim, trimEnd.
  rewrite <- trimStart_nil.
  split; intros H.
  - apply (f_equal (@rev N)) in H. rewrite rev_involutive in H. simpl in H.
    apply trimStart_nil in H. rewrite forallb_rev in H.
    apply trimStart_nil in H. now rewrite trimStart_idem in H.
  - now rewrite H.
Qed.

Lemma normalizeExternalUrl_Some (raw : jsstring) :
  normalizeExternalUrl (Some raw) =
  match trim raw with
  | [] => None
  | _ =>
      if matchStart re_http (trim raw) then Some (trim raw)
      else if test_alt re_dangerous (trim raw) then None
      else Some (js "https://" ++ trim raw)
  end.
Proof. destruct raw; reflexivity. Qed.

Lemma startsWithCI_head (p : string) (s : jsstring) (c : N) (p' : jsstring) :
  js p = c :: p' -> startsWithCI p s ->
  exists x s', s = x :: s' /\ asciiLower x = c.
Proof.
  intros Hp (pre & rest & -> & Hpre). rewrite Hp in Hpre.
  destruct pre as [|x pre]; [discriminate|].
  injection Hpre as Hx _. exists x, (pre ++ rest). auto.
Qed.

Lemma http_not_dangerous (s : jsstring) :
  startsWithCI "http://" s \/ startsWithCI "https://" s ->
  ~ (startsWithCI "javascript:" s \/ startsWithCI "data:" s).
Proof.
  intros H D.
  assert (Hh : exists x s', s = x :: s' /\ asciiLower x = 104%N).
  { destruct H as [H|H]; eapply startsWithCI_head in H; eauto; reflexivity. }
  destruct Hh as (x & s' & -> & Hx).
  destruct D as [D|D]; eapply startsWithCI_head in D;
    try reflexivity; destruct D as (y & t & E & Hy);
    injection E as <- _; rewrite Hx in Hy; discriminate.
Qed.

(** C8: [normalizeExternalUrl] works on the trimmed input: empty or
    whitespace-only input gives [null]; trimmed text that starts with
    [http://] or [https://] (in any letter case) is returned as it is;
    trimmed text that starts with [javascript:] or [data:] gives [null];
    any other text is returned with [https://] in front. The four
    examples of the specification evaluate as stated. *)
Theorem normalizeExternalUrl_cases (raw : jsstring) :
  let trimmed := trim raw in
  (forallb isWhiteSpace raw = true -> normalizeExternalUrl (Some raw) = None)
  /\ (startsWithCI "http://" trimmed \/ startsWithCI "https://" trimmed ->
      normalizeExternalUrl (Some raw) = Some trimmed)
  /\ (startsWithCI "javascript:" trimmed \/ startsWithCI "data:" trimmed ->
      normalizeExternalUrl (Some raw) = None)
  /\ (forallb isWhiteSpace raw = false ->
      ~ (startsWithCI "http://" trimmed \/ startsWithCI "https://" trimmed) ->
      ~ (startsWithCI "javascript:" trimmed \/ startsWithCI "data:" trimmed) ->
      normalizeExternalUrl (Some raw) = Some (js "https://" ++ trimmed))
  /\ normalizeExternalUrl (Some (js "example.com")) = Some (js "https://example.com")
  /\ normalizeExternalUrl (Some (js "javascript:alert(1)")) = None
  /\ normalizeExternalUrl (Some (js "  ")) = None
  /\ normalizeExternalUrl (Some (js "https://x.com")) = Some (js "https://x.com").
Proof.
  intros trimmed. rewrite normalizeExternalUrl_Some. fold trimmed.
  pose proof (trim_nil raw) as Hnil. fold trimmed in Hnil.
  repeat split; try reflexivity.
  - intros Hw. apply Hnil in Hw. now rewrite Hw.
  - intros H. apply re_http_spec in H. rewrite H.
    destruct trimmed; [discriminate H|reflexivity].
  - intros H. pose proof H as D. apply re_dangerous_spec in H. rewrite H.
    destruct (matchStart re_http trimmed) eqn:E.
    + apply re_http_spec in E. now apply http_not_dangerous in E.
    + now destruct trimmed.
  - intros Hw H D.
    destruct (matchStart re_http trimmed) eqn:E1;
      [now apply re_http_spec in E1|].
    destruct (test_alt re_dangerous trimmed) eqn:E2;
      [now apply re_dangerous_spec in E2|].
    destruct trimmed; [|reflexivity].
    assert (forallb isWhiteSpace raw = true) by now apply Hnil.
    congruence.
Qed.

(** C10: a result of [normalizeExternalUrl] that is not [null] is a
    non-empty string that starts with [http://] or [https://], letter
    case ignored; it starts with neither [javascript:] nor [data:]. *)
Theorem normalizeExternalUrl_http_only (raw : option jsstring) (r : jsstring) :
  normalizeExternalUrl raw = Some r ->
  r <> []
  /\ (startsWithCI "http://" r \/ startsWithCI "https://" r)
  /\ ~ startsWithCI "javascript:" r
  /\ ~ startsWithCI "data:" r.
Proof.
  intros H.
  assert (Hr : startsWithCI "http://" r \/ startsWithCI "https://" r).
  { destruct raw as [raw|]; [|discriminate].
    rewrite normalizeExternalUrl_Some in H.
    destruct (trim raw) as [|c t] eqn:Et; [discriminate|].
    destruct (matchStart re_http (c :: t)) eqn:E1.
    - injection H as <-. now apply re_http_spec.
    - destruct (test_alt re_dangerous (c :: t)); [discriminate|].
      injection H as <-. right. exists (js "https://"), (c :: t).
      split; reflexivity. }
  split; [|split; [exact Hr|]].
  - intros ->. destruct Hr as [Hr|Hr];
      eapply startsWithCI_head in Hr; try reflexivity;
      destruct Hr as (? & ? & ? & _); discriminate.
  - pose proof (http_not_dangerous r Hr). tauto.
Qed.

(** *** Trimming twice, and the inline link *)

Lemma trimStart_split (s : jsstring) :
  exists ws, s = ws ++ trimStart s /\ forallb isWhiteSpace ws = true.
Proof.
  induction s as [|c s (ws & E & H)]; [now exists []|].
  cbn [trimStart]. destruct (isWhiteSpace c) eqn:Hc.
  - exists (c :: ws). cbn [app forallb]. rewrite Hc, H. split; [|reflexivity].
    now rewrite <- E.
  - now exists [].
Qed.

Lemma trimStart_head (c : N) (s : jsstring) :
  trimStart (c :: s) = c :: s <-> isWhiteSpace c = false.
Proof.
  cbn [trimStart]. destruct (isWhiteSpace c) eqn:Hc; [|tauto].
  split; [|discriminate]. intros E.
  destruct (trimStart_split s) as (ws & Es & _).
  apply (f_equal (@length N)) in E. apply (f_equal (@length N)) in Es.
  rewrite length_app in Es. cbn [length] in E. lia.
Qed.

Lemma trimStart_app_fixed (l x : jsstring) :
  l <> [] -> trimStart l = l -> trimStart (l ++ x) = l ++ x.
Proof.
  destruct l as [|c l]; [contradiction|]. intros _ H.
  apply trimStart_head in H. cbn [app trimStart]. now rewrite H.
Qed.

Lemma trimEnd_prefix (u : jsstring) :
  exists ws, u = trimEnd u ++ ws.
Proof.
  unfold trimEnd. destruct (trimStart_split (rev u)) as (ws & E & _).
  exists (rev ws). rewrite <- rev_app_distr, <- E. now rewrite rev_involutive.
Qed.

Lemma trim_fixed (s : jsstring) :
  trimStart (trim s) = trim s /\ trimStart (rev (trim s)) = rev (trim s).
Proof.
  unfold trim. set (u := trimStart s).
  assert (Hu : trimStart u = u) by apply trimStart_idem.
  split.
  - destruct (trimEnd_prefix u) as (ws & E).
    destruct (trimEnd u) as [|c t] eqn:Et; [reflexivity|].
    rewrite E in Hu. cbn [app] in Hu. apply trimStart_head in Hu.
    now apply trimStart_head.
  - unfold trimEnd. rewrite rev_involutive. apply trimStart_idem.
Qed.

Lemma trim_of_fixed (s : jsstring) :
  trimStart s = s -> trimStart (rev s) = rev s -> trim s = s.
Proof.
  intros H1 H2. unfold trim, trimEnd. rewrite H1, H2. apply rev_involutive.
Qed.

Lemma trim_idem (s : jsstring) : trim (trim s) = trim s.
Proof. destruct (trim_fixed s). now apply trim_of_fixed. Qed.

Lemma startsWith_prefix (s p : jsstring) :
  startsWith s p = true <-> exists rest, s = p ++ rest.
Proof.
  revert s. induction p as [|c p IH]; intros s.
  - destruct s; cbn; split; eauto.
  - destruct s as [|x s]; cbn [startsWith app].
    + split; [discriminate | intros (rest & E); discriminate].
    + rewrite andb_true_iff, N.eqb_eq, IH. split.
      * intros (-> & rest & ->). now exists rest.
      * intros (rest & E). injection E as -> ->. eauto.
Qed.

(** X15: When it is not [null], the result of [normalizeExternalUrl] is a
    fixed point of it. *)
Theorem normalizeExternalUrl_idempotent (raw : option jsstring) (r : jsstring) :
  normalizeExternalUrl raw = Some r ->
  normalizeExternalUrl (Some r) = Some r.
Proof.
  intros H.
  assert (Hr : r <> [] /\ trim r = r /\ matchStart re_http r = true).
  { destruct raw as [raw|]; [|discriminate].
    rewrite normalizeExternalUrl_Some in H.
    destruct (trim raw) as [|c t] eqn:Et; [discriminate|].
    destruct (matchStart re_http (c :: t)) eqn:E1.
    - injection H as <-. split; [discriminate|]. split; [|assumption].
      rewrite <- Et. apply trim_idem.
    - destruct (test_alt re_dangerous (c :: t)); [discriminate|].
      injection H as <-. split; [discriminate|]. split.
      + destruct (trim_fixed raw) as [_ Hend]. rewrite Et in Hend.
        apply trim_of_fixed; [reflexivity|].
        change (trimStart (rev (js "https://" ++ c :: t))
                = rev (js "https://" ++ c :: t)).
        rewrite rev_app_distr. apply trimStart_app_fixed; [|exact Hend].
        intros E. apply (f_equal (@length N)) in E.
        rewrite length_rev in E. discriminate.
      + apply re_http_spec. right. exists (js "https://"), (c :: t).
        split; reflexivity. }
  destruct Hr as (Hne & Htrim & Hmatch).
  rewrite normalizeExternalUrl_Some, Htrim, Hmatch.
  destruct r; [contradiction|reflexivity].
Qed.

(** X16: The inline link of the event cards is ["#"] or starts with
    [http://] or [https://] in lower case; it is never empty. *)
Theorem eventHref_shape (url : jsstring) :
  eventHref url = js "#"
  \/ exists rest,
       eventHref url = js "http://" ++ rest
       \/ eventHref url = js "https://" ++ rest.
Proof.
  unfold eventHref. destruct url as [|c url]; [now left|].
  destruct (trim (c :: url)) as [|x t] eqn:Et; [now left|]. right.
  destruct (startsWith (x :: t) (js "http://")) eqn:E1.
  - apply startsWith_prefix in E1. destruct E1 as (rest & ->).
    exists rest. now left.
  - destruct (startsWith (x :: t) (js "https://")) eqn:E2; cbn [orb].
    + apply startsWith_prefix in E2. destruct E2 as (rest & ->).
      exists rest. now right.
    + exists (x :: t). now right.
Qed.

Lemma eventHref_trim (url : jsstring) :
  eventHref url =
  match trim url with
  | [] => js "#"
  | _ =>
      if startsWith (trim url) (js "http://")
         || startsWith (trim url) (js "https://")
      then trim url
      else js "https://" ++ trim url
  end.
Proof. destruct url; reflexivity. Qed.

(** X17: The inline link against [normalizeExternalUrl]. Where the sanitizer
    gives a URL, the link is that URL, or that URL behind one more
    [https://] when its scheme is not written in lower case. Where the
    sanitizer gives [null], the link is ["#"] for blank text, and for
    text with a [javascript:] or [data:] scheme it is that text behind
    [https://]: the link does not reject such text. *)
Theorem eventHref_vs_normalizeExternalUrl (url : jsstring) :
  match normalizeExternalUrl (Some url) with
  | Some r =>
      eventHref url = r
      \/ (eventHref url = js "https://" ++ r
          /\ r = trim url
          /\ startsWith r (js "http://") = false
          /\ startsWith r (js "https://") = false)
  | None =>
      (trim url = [] /\ eventHref url = js "#")
      \/ ((startsWithCI "javascript:" (trim url)
           \/ startsWithCI "data:" (trim url))
          /\ eventHref url = js "https://" ++ trim url)
  end.
Proof.
  rewrite normalizeExternalUrl_Some, eventHref_trim.
  destruct (trim url) as [|c t] eqn:Et; [now left|].
  assert (Hexact : forall p : string,
             map asciiLower (js p) = js p ->
             startsWith (c :: t) (js p) = true -> startsWithCI p (c :: t)).
  { intros p Hp H. apply startsWith_prefix in H. destruct H as (rest & E).
    exists (js p), rest. auto. }
  destruct (matchStart re_http (c :: t)) eqn:E1.
  - destruct (startsWith (c :: t) (js "http://")
              || startsWith (c :: t) (js "https://")) eqn:E2; [now left|].
    right. apply orb_false_iff in E2. tauto.
  - assert (E2 : startsWith (c :: t) (js "http://")
                 || startsWith (c :: t) (js "https://") = false).
    { apply not_true_is_false. intros H. apply orb_true_iff in H.
      assert (matchStart re_http (c :: t) = true); [|congruence].
      apply re_http_spec.
      destruct H as [H|H]; [left|right]; apply Hexact; auto. }
    rewrite E2.
    destruct (test_alt re_dangerous (c :: t)) eqn:E3; [|now left].
    right. split; [now apply re_dangerous_spec | reflexivity].
Qed.

End Sanitizer.

(** The C10 property at [example.com]. *)
Lemma normalizeExternalUrl_http_only_witness :
  normalizeExternalUrl (Some (js "example.com")) = Some (js "https://example.com")
  /\ (js "https://example.com" <> []
      /\ (startsWithCI "http://" (js "https://example.com")
          \/ startsWithCI "https://" (js "https://example.com"))
      /\ ~ startsWithCI "javascript:" (js "https://example.com")
      /\ ~ startsWithCI "data:" (js "https://example.com")).
Proof.
  split; [reflexivity|].
  apply (normalizeExternalUrl_http_only (Some (js "example.com"))).
  reflexivity.
Defined.

(** ** The insertion-ordered map and the merge *)

Section MapFacts.

Lemma eqb_eq (a b : jsstring) : eqb a b = true <-> a = b.
Proof.
  revert b. induction a as [|x a IH]; intros [|y b]; simpl;
    try (split; [discriminate|discriminate]); [tauto|].
  rewrite andb_true_iff, N.eqb_eq, IH.
  split; [intros [-> ->]; reflexivity | intros E; injection E; auto].
Qed.

Lemma eqb_refl (a : jsstring) : eqb a a = true.
Proof. now apply eqb_eq. Qed.

Lemma eqb_neq (a b : jsstring) : eqb a b = false <-> a <> b.
Proof.
  rewrite <- eqb_eq. destruct (eqb a b); split; congruence.
Qed.

Lemma keys_set {V} (m : JsMap.t V) (k : jsstring) (v : V) :
  JsMap.keys (JsMap.set m k v) =
  if JsMap.has m k then JsMap.keys m else JsMap.keys m ++ [k].
Proof.
  induction m as [|[k' v'] m IH]; [reflexivity|].
  cbn [JsMap.set]. unfold JsMap.has in *. cbn [existsb fst].
  destruct (eqb k' k) eqn:E; [reflexivity|].
  cbn [orb]. unfold JsMap.keys in *. cbn [map fst]. rewrite IH.
  now destruct (existsb _ m).
Qed.

Lemma keyed_set (m : collected) (ev : Event.t) :
  keyed m -> keyed (JsMap.set m (Event.id ev) ev).
Proof.
  unfold keyed. induction 1 as [|[k v] m Hkv Hm IH]; cbn [JsMap.set].
  - now repeat constructor.
  - destruct (eqb k (Event.id ev)) eqn:E.
    + apply eqb_eq in E. constructor; [now cbn|assumption].
    + now constructor.
Qed.

Lemma keyed_values (m : collected) :
  keyed m -> eventIds (JsMap.values m) = JsMap.keys m.
Proof.
  unfold keyed, eventIds, JsMap.values, JsMap.keys.
  induction 1 as [|kv m H _ IH]; [reflexivity|].
  cbn [map]. now rewrite H, IH.
Qed.

Lemma in_firstSeen (l : list jsstring) (k : jsstring) :
  In k (firstSeen l) <-> In k l.
Proof.
  induction l as [|x l IH]; [reflexivity|].
  cbn [firstSeen In]. rewrite filter_In, IH, negb_true_iff, eqb_neq.
  destruct (list_eq_dec N.eq_dec x k) as [->|Hne]; [tauto|].
  split; [tauto|]. intros [H|H]; [tauto|]. right. split; congruence.
Qed.

Lemma NoDup_firstSeen (l : list jsstring) : NoDup (firstSeen l).
Proof.
  induction l as [|x l IH]; cbn [firstSeen]; constructor.
  - rewrite filter_In, negb_true_iff, eqb_neq. tauto.
  - now apply NoDup_filter.
Qed.

Lemma firstSeen_snoc (l : list jsstring) (k : jsstring) :
  firstSeen (l ++ [k]) =
  if existsb (fun x => eqb x k) l then firstSeen l else firstSeen l ++ [k].
Proof.
  induction l as [|x l IH]; [reflexivity|].
  cbn [app firstSeen existsb]. rewrite IH.
  destruct (eqb x k) eqn:E; cbn [orb].
  - apply eqb_eq in E. subst k.
    destruct (existsb _ l); [reflexivity|].
    rewrite filter_app. cbn [filter]. rewrite eqb_refl. cbn [negb].
    now rewrite app_nil_r.
  - destruct (existsb _ l); [reflexivity|].
    rewrite filter_app. cbn [filter].
    assert (E' : eqb k x = false).
    { apply eqb_neq. apply eqb_neq in E. congruence. }
    now rewrite E'.
Qed.

Lemma existsb_firstSeen (l : list jsstring) (k : jsstring) :
  existsb (fun x => eqb x k) (firstSeen l) = existsb (fun x => eqb x k) l.
Proof.
  apply eq_true_iff_eq. rewrite !existsb_exists.
  split; intros (x & H1 & H2); exists x; split; try assumption;
    now apply in_firstSeen.
Qed.

Lemma has_existsb {V} (m : JsMap.t V) (k : jsstring) :
  JsMap.has m k = existsb (fun x => eqb x k) (JsMap.keys m).
Proof.
  unfold JsMap.has, JsMap.keys. induction m as [|kv m IH]; [reflexivity|].
  cbn [existsb map]. now rewrite IH.
Qed.

(** One [set] or one guarded [set] on a map whose keys are the first
    occurrences of [seen]. *)
Lemma keys_set_firstSeen {V} (m : JsMap.t V) (seen : list jsstring) k v :
  JsMap.keys m = firstSeen seen ->
  JsMap.keys (JsMap.set m k v) = firstSeen (seen ++ [k]).
Proof.
  intros H. rewrite keys_set, firstSeen_snoc, has_existsb, H.
  rewrite existsb_firstSeen. now destruct (existsb _ seen).
Qed.

Lemma keys_ofEntries_from {V} (entries : list (jsstring * V))
    (m : JsMap.t V) (seen : list jsstring) :
  JsMap.keys m = firstSeen seen ->
  JsMap.keys (fold_left (fun m kv => JsMap.set m (fst kv) (snd kv)) entries m)
  = firstSeen (seen ++ map fst entries).
Proof.
  revert m seen. induction entries as [|[k v] entries IH]; intros m seen H.
  - cbn. now rewrite app_nil_r.
  - cbn [fold_left map fst snd].
    rewrite (IH _ (seen ++ [k])) by now apply keys_set_firstSeen.
    now rewrite <- app_assoc.
Qed.

Lemma keys_merge_from (arr : list Event.t) (m : collected)
    (seen : list jsstring) :
  JsMap.keys m = firstSeen seen ->
  JsMap.keys (merge m arr) = firstSeen (seen ++ eventIds arr).
Proof.
  unfold merge. revert m seen.
  induction arr as [|ev arr IH]; intros m seen H.
  - cbn. now rewrite app_nil_r.
  - cbn [fold_left eventIds map].
    rewrite (IH _ (seen ++ [Event.id ev])).
    + now rewrite <- app_assoc.
    + destruct (JsMap.has m (Event.id ev)) eqn:E.
      * rewrite firstSeen_snoc, <- existsb_firstSeen, <- H, <- has_existsb.
        now rewrite E.
      * now apply keys_set_firstSeen.
Qed.

Lemma keyed_merge (arr : list Event.t) (m : collected) :
  keyed m -> keyed (merge m arr).
Proof.
  unfold merge. revert m. induction arr as [|ev arr IH]; intros m H; [exact H|].
  cbn [fold_left]. apply IH.
  destruct (JsMap.has m (Event.id ev)); [exact H | now apply keyed_set].
Qed.

Lemma keyed_ofEntries (base : list Event.t) :
  keyed (JsMap.ofEntries (map (fun e => (Event.id e, e)) base)).
Proof.
  unfold JsMap.ofEntries.
  assert (G : forall m : collected, keyed m ->
            keyed (fold_left (fun m kv => JsMap.set m (fst kv) (snd kv))
                     (map (fun e => (Event.id e, e)) base) m)).
  { induction base as [|e base IH]; intros m H; [exact H|].
    cbn [map fold_left fst snd]. apply IH. now apply keyed_set. }
  apply G. constructor.
Qed.

Lemma merge_app (m : collected) (a b : list Event.t) :
  merge m (a ++ b) = merge (merge m a) b.
Proof. unfold merge. apply fold_left_app. Qed.

Lemma size_keys {V} (m : JsMap.t V) : JsMap.size m = length (JsMap.keys m).
Proof. unfold JsMap.size, JsMap.keys. now rewrite length_map. Qed.

Lemma size_set {V} (m : JsMap.t V) k v :
  JsMap.size (JsMap.set m k v) =
  if JsMap.has m k then JsMap.size m else S (JsMap.size m).
Proof.
  rewrite !size_keys, keys_set.
  destruct (JsMap.has m k); [reflexivity|].
  rewrite length_app. cbn. lia.
Qed.

Lemma size_merge (arr : list Event.t) (m : collected) :
  JsMap.size m <= JsMap.size (merge m arr) <= JsMap.size m + length arr.
Proof.
  unfold merge. revert m. induction arr as [|ev arr IH]; intros m.
  - cbn [fold_left length]. lia.
  - cbn [fold_left length].
    specialize (IH (if JsMap.has m (Event.id ev) then m
                    else JsMap.set m (Event.id ev) ev)).
    destruct (JsMap.has m (Event.id ev)) eqn:E.
    + lia.
    + rewrite size_set, E in IH. lia.
Qed.

Lemma size_ofEntries {V} (entries : list (jsstring * V)) :
  JsMap.size (JsMap.ofEntries entries) <= length entries.
Proof.
  unfold JsMap.ofEntries.
  assert (G : forall m : JsMap.t V,
            JsMap.size (fold_left (fun m kv => JsMap.set m (fst kv) (snd kv))
                          entries m) <= JsMap.size m + length entries).
  { induction entries as [|kv entries IH]; intros m; cbn [fold_left length].
    - lia.
    - specialize (IH (JsMap.set m (fst kv) (snd kv))).
      rewrite size_set in IH. destruct (JsMap.has m (fst kv)); lia. }
  apply (G []).
Qed.

(** A page whose identifiers are all in the map changes nothing. *)
Lemma merge_seen (arr : list Event.t) (m : collected) :
  (forall ev, In ev arr -> JsMap.has m (Event.id ev) = true) ->
  merge m arr = m.
Proof.
  unfold merge. induction arr as [|ev arr IH]; intros H; [reflexivity|].
  cbn [fold_left]. rewrite (H ev) by now left.
  apply IH. intros ev' Hin. apply H. now right.
Qed.

Lemma values_set {V} (m : JsMap.t V) k (v v' : V) :
  In v' (JsMap.values (JsMap.set m k v)) -> v' = v \/ In v' (JsMap.values m).
Proof.
  unfold JsMap.values. induction m as [|[k0 v0] m IH]; cbn [JsMap.set].
  - cbn. intuition.
  - destruct (eqb k0 k); cbn [map snd In]; intuition.
Qed.

Lemma values_merge (arr : list Event.t) (m : collected) (ev : Event.t) :
  In ev (JsMap.values (merge m arr)) -> In ev (JsMap.values m) \/ In ev arr.
Proof.
  unfold merge. revert m. induction arr as [|e arr IH]; intros m H; [now left|].
  cbn [fold_left] in H. apply IH in H. destruct H as [H|H]; [|right; now right].
  destruct (JsMap.has m (Event.id e)); [now left|].
  apply values_set in H. destruct H as [->|H]; [right; now left | now left].
Qed.

Lemma values_ofEntries (base : list Event.t) (ev : Event.t) :
  In ev (JsMap.values (JsMap.ofEntries (map (fun e => (Event.id e, e)) base))) ->
  In ev base.
Proof.
  unfold JsMap.ofEntries.
  assert (G : forall m : collected,
            In ev (JsMap.values
                     (fold_left (fun m kv => JsMap.set m (fst kv) (snd kv))
                        (map (fun e => (Event.id e, e)) base) m)) ->
            In ev (JsMap.values m) \/ In ev base).
  { induction base as [|e base IH]; intros m H; [now left|].
    cbn [map fold_left fst snd] in H. apply IH in H.
    destruct H as [H|H]; [|right; now right].
    apply values_set in H. destruct H as [->|H]; [right; now left | now left]. }
  intros H. apply G in H. destruct H as [[]|H]. exact H.
Qed.

Lemma keys_ofEntries (base : list Event.t) :
  JsMap.keys (JsMap.ofEntries (map (fun e => (Event.id e, e)) base))
  = firstSeen (eventIds base).
Proof.
  unfold JsMap.ofEntries.
  rewrite (keys_ofEntries_from _ [] []) by reflexivity.
  cbn [app]. now rewrite map_map.
Qed.

(** *** Which item is kept for an identifier *)

Lemma set_absent {V} (m : JsMap.t V) k (v : V) :
  JsMap.has m k = false -> JsMap.set m k v = m ++ [(k, v)].
Proof.
  unfold JsMap.has. induction m as [|[k0 v0] m IH]; [reflexivity|].
  cbn [existsb fst JsMap.set app]. intros H. apply orb_false_iff in H.
  destruct H as [H1 H2]. rewrite H1. now rewrite IH.
Qed.

Lemma has_app {V} (m m' : JsMap.t V) k :
  JsMap.has (m ++ m') k = JsMap.has m k || JsMap.has m' k.
Proof. unfold JsMap.has. apply existsb_app. Qed.


Lemma in_set {V} (m : JsMap.t V) k' (v' : V) k v :
  NoDup (JsMap.keys m) ->
  In (k, v) (JsMap.set m k' v') <->
  (k = k' /\ v = v') \/ (k <> k' /\ In (k, v) m).
Proof.
  unfold JsMap.keys. induction m as [|[k0 v0] m IH]; intros Hnd.
  - cbn. split.
    + intros [H|[]]. injection H as <- <-. now left.
    + intros [[-> ->]|[_ []]]. now left.
  - cbn [map fst] in Hnd. inversion Hnd as [|? ? Hnot Hnd']; subst.
    cbn [JsMap.set]. destruct (eqb k0 k') eqn:E.
    + apply eqb_eq in E. subst k0. cbn [In]. split.
      * intros [H|H]; [injection H as <- <-; now left|].
        right. split; [|now right]. intros ->. apply Hnot.
        apply in_map_iff. now exists (k', v).
      * intros [[-> ->]|[Hne [H|H]]]; [now left | | now right].
        injection H as <- _. contradiction.
    + apply eqb_neq in E. cbn [In]. rewrite (IH Hnd'). split.
      * intros [H|[H|H]]; [|now left|right; tauto].
        injection H as <- <-. right. split; [congruence|now left].
      * intros [H|[Hne [H|H]]]; [right; now left | now left | right; tauto].
Qed.

Lemma NoDup_keys_set {V} (m : JsMap.t V) k (v : V) :
  NoDup (JsMap.keys m) -> NoDup (JsMap.keys (JsMap.set m k v)).
Proof.
  intros H. rewrite keys_set. destruct (JsMap.has m k) eqn:E; [exact H|].
  apply NoDup_app; [exact H | repeat constructor; intros [] |].
  intros x Hx [Hk|[]]. subst x. rewrite has_existsb in E.
  assert (existsb (fun y => eqb y k) (JsMap.keys m) = true); [|congruence].
  apply existsb_exists. exists k. split; [exact Hx | apply eqb_refl].
Qed.

Lemma in_ofEntries_from (base : list Event.t) :
  forall (m : collected), NoDup (JsMap.keys m) ->
  forall k v,
    In (k, v)
       (fold_left (fun m kv => JsMap.set m (fst kv) (snd kv))
          (map (fun e => (Event.id e, e)) base) m)
    <-> (In (k, v) m /\ forall e, In e base -> Event.id e <> k)
        \/ (k = Event.id v
            /\ exists pre post,
                 base = pre ++ v :: post
                 /\ forall e, In e post -> Event.id e <> k).
Proof.
  induction base as [|ev base IH]; intros m Hnd k v.
  - cbn. split.
    + intros H. left. split; [exact H|]. contradiction.
    + intros [[H _]|(_ & pre & post & E & _)]; [exact H|].
      destruct pre; discriminate.
  - cbn [map fold_left fst snd].
    rewrite (IH _ (NoDup_keys_set m (Event.id ev) ev Hnd)), (in_set _ _ _ _ _ Hnd).
    split.
    + intros [[[[-> ->]|[Hne Hin]] Hrest]|(Hk & pre & post & -> & Hpost)].
      * right. split; [reflexivity|]. exists [], base. now split.
      * left. split; [exact Hin|]. intros e [<-|He]; [congruence|now apply Hrest].
      * right. split; [exact Hk|]. exists (ev :: pre), post. now split.
    + intros [[Hin Hall]|(Hk & pre & post & E & Hpost)].
      * left. split; [|intros e He; apply Hall; now right].
        right. split; [|exact Hin]. intros ->. apply (Hall ev); [now left|reflexivity].
      * destruct pre as [|e0 pre]; cbn [app] in E; injection E as <- ->.
        -- left. split; [now left | exact Hpost].
        -- right. split; [exact Hk|]. now exists pre, post.
Qed.

(** X13: [new Map(base.map(e => [e.id, e]))] keeps, for each identifier of
    the base page, the last item of the page with this identifier. *)
Theorem ofEntries_keeps_last (base : list Event.t) (ev : Event.t) :
  In ev (JsMap.values (JsMap.ofEntries (map (fun e => (Event.id e, e)) base)))
  <-> exists pre post,
        base = pre ++ ev :: post
        /\ forall e, In e post -> Event.id e <> Event.id ev.
Proof.
  unfold JsMap.values, JsMap.ofEntries. rewrite in_map_iff. split.
  - intros ([k v] & <- & Hin). cbn [snd].
    apply (in_ofEntries_from base [] (NoDup_nil _)) in Hin.
    destruct Hin as [[[] _]|(-> & H)]. exact H.
  - intros H. exists (Event.id ev, ev). split; [reflexivity|].
    apply (in_ofEntries_from base [] (NoDup_nil _)). right. now split.
Qed.

End MapFacts.

(** ** Array and string built-ins *)

Section BuiltinFacts.

Lemma firstn_min_length {A} (n : nat) (l : list A) :
  firstn (Nat.min n (length l)) l = firstn n l.
Proof.
  destruct (Nat.le_gt_cases n (length l)) as [H|H].
  - now rewrite Nat.min_l.
  - rewrite Nat.min_r by lia. rewrite firstn_all, firstn_all2 by lia.
    reflexivity.
Qed.

(** [slice(0, e)] keeps the first [e] elements, and for a negative [e]
    drops the last [-e]. *)
Lemma slice0_spec {A} (arr : list A) (e : Z) :
  slice0 arr e =
  if (e <? 0)%Z then firstn (length arr - Z.to_nat (- e)) arr
  else firstn (Z.to_nat e) arr.
Proof.
  unfold slice0. destruct (e <? 0)%Z eqn:E.
  - apply Z.ltb_lt in E. f_equal. lia.
  - apply Z.ltb_ge in E. rewrite <- (firstn_min_length (Z.to_nat e)).
    f_equal. lia.
Qed.

Lemma includes_occursIn (s sub : jsstring) :
  includes s sub = true <-> occursIn sub s.
Proof.
  unfold occursIn. induction s as [|x s IH]; cbn [includes].
  - rewrite orb_false_r, startsWith_prefix. split.
    + intros (rest & E). exists [], rest. exact E.
    + intros (pre & post & E). destruct pre; [|discriminate].
      exists post. exact E.
  - rewrite orb_true_iff, startsWith_prefix, IH. split.
    + intros [(rest & E)|(pre & post & E)].
      * exists [], rest. exact E.
      * exists (x :: pre), post. cbn [app]. now rewrite E.
    + intros (pre & post & E). destruct pre as [|y pre].
      * left. exists post. exact E.
      * right. cbn [app] in E. injection E as _ E. eauto.
Qed.

Lemma includes_empty (s : jsstring) : includes s [] = true.
Proof. apply includes_occursIn. now exists [], s. Qed.

End BuiltinFacts.

(** ** The client *)

Section ClientProperties.

Variable W : Type.
Variable fetch : forall t : ty, jsstring -> W -> FetchResult (resp t) * W.
Variable encodeURIComponent : jsstring -> result jsstring.
Variable toLowerCase : jsstring -> jsstring.

Local Abbreviation St := (ApiClient.St W).
Local Abbreviation fetchJson := (ApiClient.fetchJson W fetch).
Local Abbreviation checkHealth := (ApiClient.checkHealth W fetch).
Local Abbreviation getStats := (ApiClient.getStats W fetch).
Local Abbreviation getTopArtists := (ApiClient.getTopArtists W fetch).
Local Abbreviation getTopEvents := (ApiClient.getTopEvents W fetch).
Local Abbreviation getArtist := (ApiClient.getArtist W fetch).
Local Abbreviation getEvent := (ApiClient.getEvent W fetch).
Local Abbreviation artistsLoop := (ApiClient.artistsLoop W fetch).
Local Abbreviation getAllArtists := (ApiClient.getAllArtists W fetch).
Local Abbreviation probeStep := (ApiClient.probeStep W fetch).
Local Abbreviation directProbe := (ApiClient.directProbe W fetch).
Local Abbreviation pageStep := (ApiClient.pageStep W fetch).
Local Abbreviation pageLoop := (ApiClient.pageLoop W fetch).
Local Abbreviation tryStrategies := (ApiClient.tryStrategies W fetch).
Local Abbreviation paginate := (ApiClient.paginate W fetch).
Local Abbreviation getAllEvents := (ApiClient.getAllEvents W fetch).
Local Abbreviation probeFails := (ApiClient.probeFails W fetch).
Local Abbreviation fullPages := (ApiClient.fullPages W fetch).
Local Abbreviation searchArtists :=
  (ApiClient.searchArtists W fetch encodeURIComponent toLowerCase).
Local Abbreviation searchEvents :=
  (ApiClient.searchEvents W fetch encodeURIComponent toLowerCase).

(** *** One request *)

Lemma fetchJson_log (t : ty) (endpoint : jsstring) (s s' : St)
    (r : result (resp t)) :
  fetchJson t endpoint s = (r, s') ->
  log s' = log s ++ [mkExchange (API_BASE_URL ++ endpoint) t r].
Proof.
  unfold ApiClient.fetchJson.
  destruct (fetch t (API_BASE_URL ++ endpoint) (world s)) as [response w'].
  intros H. injection H as <- <-. reflexivity.
Qed.

(** A [try] whose handler returns a value returns a value. *)
Lemma try_catch_returns {A} (m : M St A) (h : exn -> A) (s : St) :
  returns (try_catch m (fun e => ret (h e)) s).
Proof.
  unfold try_catch, ret, returns.
  destruct (m s) as [[a|e] s']; eauto.
Qed.

Lemma try_catch_ok {A} (m : M St A) (h : exn -> M St A) (s s' : St) (a : A) :
  m s = (Ok a, s') -> try_catch m h s = (Ok a, s').
Proof. unfold try_catch. now intros ->. Qed.

Lemma try_catch_throw {A} (m : M St A) (h : exn -> M St A) (s s' : St) e :
  m s = (Throw e, s') -> try_catch m h s = h e s'.
Proof. unfold try_catch. now intros ->. Qed.

(** *** The health probe *)

(** C9: [checkHealth] never throws and issues exactly one request, for
    [/health]; when [fetch] rejects (network error, timeout), the status
    is not a success status or the body cannot be read, it returns
    "disconnected" with the fixed message; otherwise it returns
    "connected" with the message of the body when that is a non-empty
    string and with "Backend is healthy" when it is missing or empty. *)
Theorem checkHealth_spec (s : St) :
  let url := API_BASE_URL ++ js "/health" in
  exists (h : Health) (s' : St) (r : result HealthBody),
    checkHealth s = (Ok h, s')
    /\ log s' = log s ++ [mkExchange url THealth r]
    /\ world s' = snd (fetch THealth url (world s))
    /\ match fst (fetch THealth url (world s)) with
       | Rejected _ => h = disconnected
       | Response code (Throw _) => h = disconnected
       | Response code (Ok body) =>
           if ok code then
             status h = js "connected"
             /\ match body_message body with
                | Some (c :: m) => message h = c :: m
                | Some [] | None => message h = js "Backend is healthy"
                end
           else h = disconnected
       end.
Proof.
  intros url. unfold ApiClient.checkHealth, try_catch, bind, ret.
  destruct (fetchJson THealth (js "/health") s) as [r s'] eqn:E.
  pose proof (fetchJson_log _ _ _ _ _ E) as Hlog.
  unfold ApiClient.fetchJson in E. fold url in E.
  destruct (fetch THealth url (world s)) as [response w'].
  injection E as Hr Hs. simpl.
  assert (Hw : world s' = w') by now rewrite <- Hs.
  destruct response as [e|code [body|e]]; simpl in Hr.
  - subst r. eauto 8.
  - destruct (ok code); simpl in Hr; subst r; [|eauto 8].
    exists (mkHealth (js "connected")
              (orElse (body_message body) (js "Backend is healthy"))), s'.
    eexists. repeat split; [exact Hlog|exact Hw|].
    simpl. now destruct (body_message body) as [[|c m]|].
  - destruct (ok code); simpl in Hr; subst r; eauto 8.
Qed.

(** *** The methods that never throw, and the two that do *)

Lemma directProbe_returns (limits : list nat) (base : list Event.t) (s : St) :
  returns (directProbe limits base s).
Proof.
  revert base s. induction limits as [|limit rest IH]; intros base s; simpl.
  - unfold ret, returns. eauto.
  - unfold bind.
    destruct (try_catch_returns
                (bind (fetchJson TEvents
                         (js "/events/top?limit=" ++ natToString limit))
                   (fun data => if length data <? limit
                                then ret (Some (Returned data))
                                else ret (Some (Base data))))
                (fun _ => None) s) as (r & s1 & E).
    unfold ApiClient.probeStep. rewrite E.
    destruct r as [p|]; [unfold ret, returns; eauto | apply IH].
Qed.

Lemma pageStep_returns strat pageSize i coll success (s : St) :
  returns (pageStep strat pageSize i coll success s).
Proof.
  unfold ApiClient.pageStep.
  apply (try_catch_returns _ (fun _ => (coll, success, false))).
Qed.

Lemma pageLoop_returns strat pageSize indices coll success (s : St) :
  returns (pageLoop strat pageSize indices coll success s).
Proof.
  revert coll success s.
  induction indices as [|i rest IH]; intros coll success s; simpl.
  - unfold ret, returns. eauto.
  - unfold bind.
    destruct (pageStep_returns strat pageSize i coll success s)
      as ([[coll' success'] goOn] & s1 & ->).
    destruct goOn; [apply IH | unfold ret, returns; eauto].
Qed.

Lemma tryStrategies_returns strats pageSize coll (s : St) :
  returns (tryStrategies strats pageSize coll s).
Proof.
  revert coll s. induction strats as [|strat rest IH]; intros coll s;
    cbn [ApiClient.tryStrategies].
  - unfold ret, returns. eauto.
  - unfold bind.
    destruct (pageLoop_returns strat pageSize pageIndices coll false s)
      as ([coll' success] & s1 & ->).
    destruct success; [unfold ret, returns; eauto | apply IH].
Qed.

Lemma paginate_returns (base : list Event.t) (s : St) :
  returns (paginate base s).
Proof.
  unfold ApiClient.paginate.
  destruct (length base =? 0); [unfold ret, returns; eauto|].
  destruct (maxTotal <=? _); [unfold ret, returns; eauto|].
  unfold bind.
  destruct (tryStrategies_returns (strategies (pageSizeOf base))
              (pageSizeOf base)
              (JsMap.ofEntries (map (fun e => (Event.id e, e)) base)) s)
    as (r & s1 & ->).
  unfold ret, returns. eauto.
Qed.

Lemma find_none_iff {A} (f : A -> bool) (l : list A) :
  find f l = None <-> forall a, In a l -> f a = false.
Proof.
  split; [apply find_none|].
  induction l as [|a l IH]; simpl; intros H; [reflexivity|].
  rewrite (H a) by auto. apply IH. auto.
Qed.


(** *** The first loop of [getAllEvents] and the loop of [getAllArtists] *)

Local Abbreviation eventsTop limit :=
  (js "/events/top?limit=" ++ natToString limit).
Local Abbreviation artistsTop limit :=
  (js "/artists/top?limit=" ++ natToString limit).

Lemma probeStep_throw (limit : nat) (s s1 : St) (e : exn) :
  fetchJson TEvents (eventsTop limit) s = (Throw e, s1) ->
  probeStep limit s = (Ok None, s1).
Proof.
  intros H. unfold ApiClient.probeStep, try_catch, bind. now rewrite H.
Qed.

Lemma probeStep_ok (limit : nat) (s s1 : St) (data : list Event.t) :
  fetchJson TEvents (eventsTop limit) s = (Ok data, s1) ->
  probeStep limit s =
  (Ok (Some (if length data <? limit then Returned data else Base data)), s1).
Proof.
  intros H. unfold ApiClient.probeStep, try_catch, bind. rewrite H.
  now destruct (length data <? limit).
Qed.

Lemma directProbe_throw (limit : nat) (rest : list nat) (base : list Event.t)
    (s s1 : St) (e : exn) :
  fetchJson TEvents (eventsTop limit) s = (Throw e, s1) ->
  directProbe (limit :: rest) base s = directProbe rest base s1.
Proof.
  intros H. cbn [ApiClient.directProbe]. unfold bind.
  now rewrite (probeStep_throw _ _ _ _ H).
Qed.

Lemma directProbe_ok (limit : nat) (rest : list nat) (base : list Event.t)
    (s s1 : St) (data : list Event.t) :
  fetchJson TEvents (eventsTop limit) s = (Ok data, s1) ->
  directProbe (limit :: rest) base s =
  (Ok (if length data <? limit then Returned data else Base data), s1).
Proof.
  intros H. cbn [ApiClient.directProbe]. unfold bind.
  now rewrite (probeStep_ok _ _ _ _ H).
Qed.

Lemma directProbe_fails (pre rest : list nat) (base : list Event.t)
    (s s1 : St) :
  probeFails pre s s1 ->
  directProbe (pre ++ rest) base s = directProbe rest base s1.
Proof.
  induction 1 as [s|limit pre s e s1 s2 H _ IH]; [reflexivity|].
  rewrite <- IH. now apply directProbe_throw with (e := e).
Qed.

Lemma directProbe_empty_base (limits : list nat) (s s' : St) :
  Forall (lt 0) limits ->
  directProbe limits [] s = (Ok (Base []), s') ->
  probeFails limits s s'.
Proof.
  intros Hpos. revert s.
  induction Hpos as [|limit rest Hl _ IH]; intros s H.
  - cbn in H. injection H as <-. constructor.
  - destruct (fetchJson TEvents (eventsTop limit) s) as [[data|e] s1] eqn:E.
    + rewrite (directProbe_ok _ _ _ _ _ _ E) in H.
      destruct (length data <? limit) eqn:L; [discriminate|].
      injection H as -> _. apply Nat.ltb_ge in L. simpl in L. lia.
    + rewrite (directProbe_throw _ _ _ _ _ _ E) in H.
      econstructor; eauto.
Qed.

Lemma getAllEvents_probe (s s1 : St) (p : probe) :
  directProbe directLimits [] s = (Ok p, s1) ->
  getAllEvents s =
  match p with
  | Returned data => (Ok data, s1)
  | Base base => paginate base s1
  end.
Proof.
  intros H. unfold ApiClient.getAllEvents, try_catch, bind. rewrite H.
  destruct p as [data|base]; [reflexivity|].
  now destruct (paginate_returns base s1) as (r & s2 & ->).
Qed.

Lemma artistsLoop_throw (limit : nat) (rest : list nat) (last : list Artist.t)
    (s s1 : St) (e : exn) :
  fetchJson TArtists (artistsTop limit) s = (Throw e, s1) ->
  artistsLoop (limit :: rest) last s = (Throw e, s1).
Proof.
  intros H. cbn [ApiClient.artistsLoop]. unfold bind. now rewrite H.
Qed.

Lemma artistsLoop_ok (limit : nat) (rest : list nat) (last : list Artist.t)
    (s s1 : St) (data : list Artist.t) :
  fetchJson TArtists (artistsTop limit) s = (Ok data, s1) ->
  artistsLoop (limit :: rest) last s =
  if length data <? limit then (Ok data, s1) else artistsLoop rest data s1.
Proof.
  intros H. cbn [ApiClient.artistsLoop]. unfold bind. rewrite H.
  now destruct (length data <? limit).
Qed.

Lemma artistsLoop_full (pre : list nat) (s s1 : St) :
  fullPages pre s s1 ->
  forall limit rest last, exists last',
    artistsLoop (pre ++ limit :: rest) last s
    = artistsLoop (limit :: rest) last' s1.
Proof.
  induction 1 as [s|l pre s data s1 s2 H Hlen _ IH]; intros limit rest last.
  - exists last. reflexivity.
  - destruct (IH limit rest data) as (last' & E). exists last'.
    rewrite <- E. cbn [app]. rewrite (artistsLoop_ok _ _ _ _ _ _ H).
    apply Nat.ltb_ge in Hlen. now rewrite Hlen.
Qed.

(** C7: when every request fails, [getAllArtists] returns the four mock
    artists and [getAllEvents] the two mock events. *)
Theorem offline_fallback :
  (forall t endpoint s, isThrow (fst (fetchJson t endpoint s)) = true) ->
  forall s : St,
    fst (getAllArtists s) = Ok mockArtists
    /\ fst (getAllEvents s) = Ok mockEvents
    /\ map Artist.id mockArtists = [js "1"; js "2"; js "3"; js "4"]
    /\ map Event.id mockEvents = [js "1"; js "2"].
Proof.
  intros Hfail s.
  assert (Hthrow : forall t endpoint (s : St), exists e s1,
             fetchJson t endpoint s = (Throw e, s1)).
  { intros t endpoint s0. specialize (Hfail t endpoint s0).
    destruct (fetchJson t endpoint s0) as [[a|e] s1]; [discriminate|eauto]. }
  assert (Hprobe : forall limits (s0 : St), exists s1, probeFails limits s0 s1).
  { induction limits as [|limit rest IH]; intros s0.
    - exists s0. constructor.
    - destruct (Hthrow TEvents (eventsTop limit) s0) as (e & s1 & E).
      destruct (IH s1) as (s2 & H2). exists s2. econstructor; eauto. }
  repeat split.
  - unfold ApiClient.getAllArtists, artistLimits.
    destruct (Hthrow TArtists (artistsTop 50) s) as (e & s1 & E).
    erewrite try_catch_throw by (eapply artistsLoop_throw; exact E).
    reflexivity.
  - destruct (Hprobe directLimits s) as (s1 & H1).
    pose proof (directProbe_fails _ [] [] _ _ H1) as E.
    rewrite app_nil_r in E. cbn [ApiClient.directProbe] in E.
    now rewrite (getAllEvents_probe _ _ _ E).
Qed.

(** C4: in [getAllEvents], when the sizes before [N] have all thrown and
    the request for [N] delivers fewer than [N] events, that page is the
    result and the state is the one this request left: nothing more is
    requested. In [getAllArtists], when the sizes before [N] have all
    delivered full pages and the request for [N] delivers fewer than [N]
    artists, the same holds. *)
Theorem short_page_returned :
  (forall pre N post (s s1 s2 : St) data,
      directLimits = pre ++ N :: post ->
      probeFails pre s s1 ->
      fetchJson TEvents (eventsTop N) s1 = (Ok data, s2) ->
      length data < N ->
      getAllEvents s = (Ok data, s2)
      /\ log s2 = log s1
                  ++ [mkExchange (API_BASE_URL ++ eventsTop N) TEvents (Ok data)])
  /\ (forall pre N post (s s1 s2 : St) data,
      artistLimits = pre ++ N :: post ->
      fullPages pre s s1 ->
      fetchJson TArtists (artistsTop N) s1 = (Ok data, s2) ->
      length data < N ->
      getAllArtists s = (Ok data, s2)
      /\ log s2 = log s1
                  ++ [mkExchange (API_BASE_URL ++ artistsTop N) TArtists (Ok data)]).
Proof.
  split; intros pre N post s s1 s2 data Hsplit Hpre Hfetch Hlen.
  - split; [|exact (fetchJson_log _ _ _ _ _ Hfetch)].
    apply Nat.ltb_lt in Hlen.
    erewrite getAllEvents_probe with (p := Returned data); [reflexivity|].
    rewrite Hsplit, (directProbe_fails _ _ _ _ _ Hpre).
    rewrite (directProbe_ok _ _ _ _ _ _ Hfetch). now rewrite Hlen.
  - split; [|exact (fetchJson_log _ _ _ _ _ Hfetch)].
    apply Nat.ltb_lt in Hlen.
    apply try_catch_ok. rewrite Hsplit.
    destruct (artistsLoop_full _ _ _ Hpre N post []) as (last' & ->).
    rewrite (artistsLoop_ok _ _ _ _ _ _ Hfetch). now rewrite Hlen.
Qed.

Lemma directLimits_positive : Forall (lt 0) directLimits.
Proof. unfold directLimits. repeat constructor; lia. Qed.

(** C3, as the code has it. [getAllEvents] probes the descending sizes
    500, 400, 300, 250, 200: a request that throws is followed by the
    request for the next smaller size, and the fallback for an empty
    [base] is taken when, and only when, all five have thrown.
    [getAllArtists] probes the ascending sizes 50, 100, 250, 500: the
    first request that throws ends it, with the mock artists and no
    further request. *)
Theorem probe_policy :
  StronglySorted gt directLimits
  /\ (forall limit rest base (s s1 : St) e,
        fetchJson TEvents (eventsTop limit) s = (Throw e, s1) ->
        directProbe (limit :: rest) base s = directProbe rest base s1)
  /\ (forall s s' : St,
        probeFails directLimits s s' -> getAllEvents s = (Ok mockEvents, s'))
  /\ (forall s s' : St,
        directProbe directLimits [] s = (Ok (Base []), s') ->
        probeFails directLimits s s')
  /\ StronglySorted lt artistLimits
  /\ (forall pre N post (s s1 s2 : St) e,
        artistLimits = pre ++ N :: post ->
        fullPages pre s s1 ->
        fetchJson TArtists (artistsTop N) s1 = (Throw e, s2) ->
        getAllArtists s = (Ok mockArtists, s2)
        /\ log s2 = log s1
                    ++ [mkExchange (API_BASE_URL ++ artistsTop N) TArtists
                          (Throw e)]).
Proof.
  repeat match goal with |- _ /\ _ => split end.
  - unfold directLimits. repeat constructor; lia.
  - intros. eapply directProbe_throw; eauto.
  - intros s s' H.
    pose proof (directProbe_fails _ [] [] _ _ H) as E.
    rewrite app_nil_r in E. cbn [ApiClient.directProbe] in E.
    now rewrite (getAllEvents_probe _ _ _ E).
  - intros s s'. apply directProbe_empty_base, directLimits_positive.
  - unfold artistLimits. repeat constructor; lia.
  - intros pre N post s s1 s2 e Hsplit Hpre Hfetch.
    split; [|exact (fetchJson_log _ _ _ _ _ Hfetch)].
    unfold ApiClient.getAllArtists. erewrite try_catch_throw; [reflexivity|].
    rewrite Hsplit.
    destruct (artistsLoop_full _ _ _ Hpre N post []) as (last' & ->).
    eapply artistsLoop_throw; eauto.
Qed.

(** *** Pagination discovery *)

Lemma pageLoop_cons strat pageSize i rest coll success (s : St) :
  pageLoop strat pageSize (i :: rest) coll success s =
  match pageStep strat pageSize i coll success s with
  | (Ok (coll', success', true), s1) =>
      pageLoop strat pageSize rest coll' success' s1
  | (Ok (coll', success', false), s1) => (Ok (coll', success'), s1)
  | (Throw e, s1) => (Throw e, s1)
  end.
Proof.
  cbn [ApiClient.pageLoop]. unfold bind.
  destruct (pageStep strat pageSize i coll success s)
    as [[[[coll' success'] [|]]|e] s1]; reflexivity.
Qed.

(** One iteration, told from what its request delivered: the page is
    merged, [success] is set when the map grew, and the loop goes on when
    it grew, the page was full and the map is below [maxTotal]. *)
Lemma pageStep_spec strat pageSize i coll success (s : St) :
  exists (x : Exchange) (s1 : St),
    log s1 = log s ++ [x]
    /\ (fst (fetchJson TEvents (buildUrl strat i) s) = Ok (delivered x)
        \/ (isThrow (fst (fetchJson TEvents (buildUrl strat i) s)) = true
            /\ delivered x = []))
    /\ let coll' := merge coll (delivered x) in
       let grew := JsMap.size coll <? JsMap.size coll' in
       pageStep strat pageSize i coll success s =
       (Ok (coll', success || grew,
            grew && negb (length (delivered x) <? pageSize)
                 && negb (maxTotal <=? JsMap.size coll')), s1).
Proof.
  destruct (fetchJson TEvents (buildUrl strat i) s) as [r s1] eqn:E.
  exists (mkExchange (API_BASE_URL ++ buildUrl strat i) TEvents r), s1.
  split; [exact (fetchJson_log _ _ _ _ _ E)|].
  unfold ApiClient.pageStep, try_catch, bind. rewrite E.
  destruct r as [chunk|e]; cbn [delivered fst isThrow].
  - split; [now left|]. cbv zeta.
    pose proof (size_merge chunk coll) as Hsize.
    destruct chunk as [|ev chunk].
    + cbn [length Nat.eqb]. unfold ret. change (merge coll []) with coll.
      rewrite Nat.ltb_irrefl, orb_false_r. reflexivity.
    + cbn [length Nat.eqb]. cbn [length] in Hsize.
      set (coll' := merge coll (ev :: chunk)) in *.
      destruct (JsMap.size coll' =? JsMap.size coll) eqn:G.
      * apply Nat.eqb_eq in G. rewrite G, Nat.ltb_irrefl, orb_false_r.
        reflexivity.
      * apply Nat.eqb_neq in G.
        assert (L : (JsMap.size coll <? JsMap.size coll') = true)
          by (apply Nat.ltb_lt; lia).
        rewrite L, orb_true_r. cbn [andb].
        destruct (S (length chunk) <? pageSize); [reflexivity|].
        destruct (maxTotal <=? JsMap.size coll'); reflexivity.
  - split; [now right|]. cbv zeta. unfold ret.
    change (merge coll []) with coll.
    rewrite Nat.ltb_irrefl, orb_false_r. reflexivity.
Qed.

(** The inner loop: what it requested, the map it leaves, and the sizes. *)
Lemma pageLoop_inv strat pageSize indices :
  forall coll success (s : St),
  exists (xs : list Exchange) (s' : St) (success' : bool),
    pageLoop strat pageSize indices coll success s
    = (Ok (merge coll (concat (map delivered xs)), success'), s')
    /\ log s' = log s ++ xs
    /\ (success = true -> success' = true)
    /\ (success' = false ->
        JsMap.size (merge coll (concat (map delivered xs))) = JsMap.size coll)
    /\ (forall B, Forall (fun x => length (delivered x) <= B) xs ->
        JsMap.size coll < maxTotal ->
        JsMap.size (merge coll (concat (map delivered xs))) < maxTotal + B).
Proof.
  induction indices as [|i rest IH]; intros coll success s.
  - exists [], s, success. cbn [map concat]. change (merge coll []) with coll.
    repeat split; auto.
    + now rewrite app_nil_r.
    + intros. lia.
  - rewrite pageLoop_cons.
    destruct (pageStep_spec strat pageSize i coll success s)
      as (x & s1 & Hlog & _ & Hstep).
    cbv zeta in Hstep. rewrite Hstep. clear Hstep.
    pose proof (size_merge (delivered x) coll) as Hsize.
    set (coll1 := merge coll (delivered x)) in *.
    destruct (JsMap.size coll <? JsMap.size coll1) eqn:G; cbn [andb].
    + apply Nat.ltb_lt in G. rewrite orb_true_r.
      destruct (length (delivered x) <? pageSize) eqn:Short; cbn [negb andb].
      * exists [x], s1, true. cbn [map concat]. rewrite app_nil_r.
        fold coll1. repeat split; auto; try discriminate.
        intros B HB Hlt. inversion HB; subst. lia.
      * destruct (maxTotal <=? JsMap.size coll1) eqn:Full; cbn [negb].
        -- exists [x], s1, true. cbn [map concat]. rewrite app_nil_r.
           fold coll1. repeat split; auto; try discriminate.
           intros B HB Hlt. inversion HB; subst. lia.
        -- apply Nat.leb_gt in Full.
           destruct (IH coll1 true s1)
             as (xs & s' & success' & Hrun & Hlog' & Hs & _ & Hbound).
           exists (x :: xs), s', success'. cbn [map concat].
           rewrite merge_app. fold coll1.
           rewrite (Hs eq_refl) in *.
           repeat split; auto; try discriminate.
           ++ now rewrite Hlog', Hlog, <- app_assoc.
           ++ intros B HB _. inversion HB; subst. now apply Hbound.
    + apply Nat.ltb_ge in G. rewrite orb_false_r.
      exists [x], s1, success. cbn [map concat]. rewrite app_nil_r.
      fold coll1. repeat split; auto.
      * intros _. lia.
      * intros B HB Hlt. lia.
Qed.

Lemma delivered_concat_app (xs ys : list Exchange) :
  concat (map delivered (xs ++ ys))
  = concat (map delivered xs) ++ concat (map delivered ys).
Proof. now rewrite map_app, concat_app. Qed.

Lemma tryStrategies_inv pageSize strats :
  forall coll (s : St),
  exists (xs : list Exchange) (s' : St) (used : option jsstring),
    tryStrategies strats pageSize coll s
    = (Ok (merge coll (concat (map delivered xs)), used), s')
    /\ log s' = log s ++ xs
    /\ (forall B, Forall (fun x => length (delivered x) <= B) xs ->
        JsMap.size coll < maxTotal ->
        JsMap.size (merge coll (concat (map delivered xs))) < maxTotal + B).
Proof.
  induction strats as [|strat rest IH]; intros coll s.
  - exists [], s, None. cbn [map concat]. change (merge coll []) with coll.
    repeat split; [now rewrite app_nil_r | intros; lia].
  - cbn [ApiClient.tryStrategies]. unfold bind.
    destruct (pageLoop_inv strat pageSize pageIndices coll false s)
      as (xs & s1 & success & Hrun & Hlog & _ & Hsame & Hbound).
    rewrite Hrun. destruct success.
    + exists xs, s1, (Some (name strat)). repeat split; assumption.
    + specialize (Hsame eq_refl).
      destruct (IH (merge coll (concat (map delivered xs))) s1)
        as (ys & s2 & used & Hrun2 & Hlog2 & Hbound2).
      exists (xs ++ ys), s2, used.
      rewrite delivered_concat_app, merge_app.
      repeat split; [assumption | now rewrite Hlog2, Hlog, <- app_assoc |].
      intros B HB Hlt. apply Forall_app in HB. destruct HB as [_ HB].
      apply Hbound2; [assumption | lia].
Qed.

Local Abbreviation entries base := (map (fun e => (Event.id e, e)) base).

Lemma paginate_inv (base : list Event.t) (s : St) :
  base <> [] ->
  exists (xs : list Exchange) (s' : St),
    paginate base s
    = (Ok (JsMap.values
             (merge (JsMap.ofEntries (entries base))
                (concat (map delivered xs)))), s')
    /\ log s' = log s ++ xs
    /\ (forall B, length base <= B ->
        Forall (fun x => length (delivered x) <= B) xs ->
        JsMap.size (merge (JsMap.ofEntries (entries base))
                      (concat (map delivered xs))) < maxTotal + B).
Proof.
  intros Hbase. unfold ApiClient.paginate.
  destruct base as [|e base]; [contradiction|]. cbn [length Nat.eqb].
  set (b := e :: base) in *. fold (length b).
  pose proof (size_ofEntries (entries b)) as Hsize.
  rewrite length_map in Hsize.
  set (coll := JsMap.ofEntries (entries b)) in *.
  destruct (maxTotal <=? JsMap.size coll) eqn:Full.
  - exists [], s. cbn [map concat]. change (merge coll []) with coll.
    repeat split; [now rewrite app_nil_r|].
    intros B HB _. cbn [b length] in Hsize. unfold maxTotal. lia.
  - apply Nat.leb_gt in Full. unfold bind.
    destruct (tryStrategies_inv (pageSizeOf b) (strategies (pageSizeOf b))
                coll s) as (xs & s' & used & Hrun & Hlog & Hbound).
    rewrite Hrun. exists xs, s'. repeat split; [assumption|].
    intros B _ HB. now apply Hbound.
Qed.

(** The first loop: what it requested and what it was given. *)
Lemma directProbe_log (limits : list nat) (base0 : list Event.t) :
  forall s : St,
  exists (p : probe) (s' : St) (xs : list Exchange),
    directProbe limits base0 s = (Ok p, s')
    /\ log s' = log s ++ xs
    /\ ((p = Base base0 /\ concat (map delivered xs) = [])
        \/ exists data,
             (p = Returned data \/ p = Base data)
             /\ concat (map delivered xs) = data
             /\ In data (map delivered xs)).
Proof.
  induction limits as [|limit rest IH]; intros s.
  - exists (Base base0), s, []. cbn. rewrite app_nil_r. auto.
  - destruct (fetchJson TEvents (eventsTop limit) s) as [[data|e] s1] eqn:E;
      pose proof (fetchJson_log _ _ _ _ _ E) as Hlog.
    + rewrite (directProbe_ok _ _ _ _ _ _ E).
      eexists _, s1, [_]. split; [reflexivity|]. split; [exact Hlog|].
      right. exists data. cbn [map concat delivered]. rewrite app_nil_r.
      split; [destruct (length data <? limit); auto|].
      split; [reflexivity | now left].
    + rewrite (directProbe_throw _ _ _ _ _ _ E).
      destruct (IH s1) as (p & s' & xs & Hrun & Hlog' & H).
      exists p, s', (mkExchange (API_BASE_URL ++ eventsTop limit) TEvents
                        (Throw e) :: xs).
      split; [assumption|].
      split; [now rewrite Hlog', Hlog, <- app_assoc|].
      cbn [map concat delivered app].
      destruct H as [H|(data & H1 & H2 & H3)]; [now left|].
      right. exists data. repeat split; auto. now right.
Qed.

Lemma delivered_le_max (xs : list Exchange) :
  Forall (fun x => length (delivered x)
                   <= list_max (map (fun x => length (delivered x)) xs)) xs.
Proof.
  pose proof (proj1 (list_max_le (map (fun x => length (delivered x)) xs) _)
                (le_n _)) as H.
  now apply Forall_map in H.
Qed.


(** C1, as the code has it: [maxTotal] is compared with the collected
    map only after a whole page has been merged. The sequence
    [getAllEvents] returns has fewer items than [maxTotal] plus the
    largest number of events one of its requests delivered. No request
    is made when the base page alone reaches [maxTotal]; a page that
    brings the map to [maxTotal] or more ends the loop of its scheme
    with [success] set; a scheme that ends with [success] set is the
    last one tried; and a scheme that ends without it leaves the size of
    the map as it was. *)
Theorem maxTotal_checked_after_merge :
  (forall s : St, exists r s' xs,
      getAllEvents s = (Ok r, s')
      /\ log s' = log s ++ xs
      /\ length r
         < maxTotal + list_max (map (fun x => length (delivered x)) xs))
  /\ (forall base (s : St),
        base <> [] ->
        maxTotal <= JsMap.size (JsMap.ofEntries (entries base)) ->
        paginate base s
        = (Ok (JsMap.values (JsMap.ofEntries (entries base))), s))
  /\ (forall strat pageSize i rest coll success (s s1 : St) chunk,
        fetchJson TEvents (buildUrl strat i) s = (Ok chunk, s1) ->
        JsMap.size coll < JsMap.size (merge coll chunk) ->
        maxTotal <= JsMap.size (merge coll chunk) ->
        pageLoop strat pageSize (i :: rest) coll success s
        = (Ok (merge coll chunk, true), s1))
  /\ (forall strat rest pageSize coll coll' (s s1 : St),
        pageLoop strat pageSize pageIndices coll false s
        = (Ok (coll', true), s1) ->
        tryStrategies (strat :: rest) pageSize coll s
        = (Ok (coll', Some (name strat)), s1))
  /\ (forall strat pageSize indices coll coll' (s s1 : St),
        pageLoop strat pageSize indices coll false s
        = (Ok (coll', false), s1) ->
        JsMap.size coll' = JsMap.size coll).
Proof.
  repeat match goal with |- _ /\ _ => split end.
  - intros s.
    destruct (directProbe_log directLimits [] s)
      as (p & s1 & xs & Hrun & Hlog & Hp).
    rewrite (getAllEvents_probe _ _ _ Hrun).
    assert (Hmock : forall ys, length mockEvents < maxTotal + ys)
      by (intros; unfold maxTotal; cbn [mockEvents length]; lia).
    destruct Hp as [[-> _]|(data & Hp & Hcat & Hin)].
    { exists mockEvents, s1, xs. repeat split; auto. }
    assert (Hdata : length data
                    <= list_max (map (fun x => length (delivered x)) xs)).
    { pose proof (delivered_le_max xs) as Hmax.
      rewrite Forall_forall in Hmax. apply in_map_iff in Hin.
      destruct Hin as (x & <- & Hx). now apply Hmax. }
    destruct Hp as [->| ->].
    { exists data, s1, xs. repeat split; auto. unfold maxTotal. lia. }
    destruct data as [|e data].
    { exists mockEvents, s1, xs. repeat split; auto. }
    destruct (paginate_inv (e :: data) s1) as (ys & s2 & Hpag & Hlog2 & Hbound);
      [discriminate|].
    rewrite Hpag. eexists _, s2, (xs ++ ys).
    split; [reflexivity|]. split; [now rewrite Hlog2, Hlog, <- app_assoc|].
    unfold JsMap.values. rewrite length_map. fold (JsMap.size
      (merge (JsMap.ofEntries (entries (e :: data))) (concat (map delivered ys)))).
    apply Hbound.
    + rewrite map_app, list_max_app. lia.
    + pose proof (delivered_le_max (xs ++ ys)) as Hmax.
      apply Forall_app in Hmax. tauto.
  - intros base s Hbase Hfull. unfold ApiClient.paginate.
    destruct base as [|e base]; [contradiction|]. cbn [length Nat.eqb].
    apply Nat.leb_le in Hfull. now rewrite Hfull.
  - intros strat pageSize i rest coll success s s1 chunk Hfetch Hgrew Hfull.
    rewrite pageLoop_cons.
    unfold ApiClient.pageStep, try_catch, bind. rewrite Hfetch.
    destruct chunk as [|ev chunk].
    { change (merge coll []) with coll in Hgrew. lia. }
    cbn [length Nat.eqb].
    destruct (JsMap.size (merge coll (ev :: chunk)) =? JsMap.size coll) eqn:G;
      [apply Nat.eqb_eq in G; lia|].
    apply Nat.leb_le in Hfull.
    destruct (S (length chunk) <? pageSize); [reflexivity|].
    now rewrite Hfull.
  - intros strat rest pageSize coll coll' s s1 H.
    cbn [ApiClient.tryStrategies]. unfold bind. now rewrite H.
  - intros strat pageSize indices coll coll' s s1 H.
    destruct (pageLoop_inv strat pageSize indices coll false s)
      as (xs & s' & success' & Hrun & _ & _ & Hsame & _).
    rewrite H in Hrun. injection Hrun as -> <- _. now apply Hsame.
Qed.

(** C6: when the first loop leaves [getAllEvents] with a base page, the
    pages the requests of the call delivered, taken in order, start with
    the base page, and the returned sequence holds the identifiers of
    these pages in the order of their first occurrence, each identifier
    once; every returned item is an item of one of these pages. *)
Theorem merged_pages_first_seen (s s1 : St) (base : list Event.t) :
  directProbe directLimits [] s = (Ok (Base base), s1) ->
  base <> [] ->
  exists r s2 xs,
    getAllEvents s = (Ok r, s2)
    /\ log s2 = log s ++ xs
    /\ let merged := concat (map delivered xs) in
       (exists later, merged = base ++ later)
       /\ eventIds r = firstSeen (eventIds merged)
       /\ NoDup (eventIds r)
       /\ (forall k, In k (eventIds merged) ->
             count_occ (list_eq_dec N.eq_dec) (eventIds r) k = 1)
       /\ (forall ev, In ev r -> In ev merged).
Proof.
  intros Hprobe Hbase.
  destruct (directProbe_log directLimits [] s)
    as (p & s1' & xs & Hrun & Hlog & Hp).
  rewrite Hprobe in Hrun. injection Hrun as <- <-.
  assert (Hcat : concat (map delivered xs) = base).
  { destruct Hp as [[E _]|(data & [E|E] & Hcat & _)];
      [injection E as E; contradiction | discriminate |].
    injection E as E. now subst data. }
  rewrite (getAllEvents_probe _ _ _ Hprobe).
  destruct (paginate_inv base s1 Hbase) as (ys & s2 & Hpag & Hlog2 & _).
  rewrite Hpag. eexists _, s2, (xs ++ ys).
  split; [reflexivity|]. split; [now rewrite Hlog2, Hlog, <- app_assoc|].
  cbv zeta. rewrite delivered_concat_app, Hcat.
  set (later := concat (map delivered ys)).
  assert (Hids : eventIds (JsMap.values (merge (JsMap.ofEntries (entries base))
                                           later))
                 = firstSeen (eventIds (base ++ later))).
  { rewrite keyed_values by apply keyed_merge, keyed_ofEntries.
    replace (eventIds (base ++ later)) with (eventIds base ++ eventIds later)
      by (unfold eventIds; now rewrite map_app).
    apply keys_merge_from, keys_ofEntries. }
  split; [now exists later|]. split; [exact Hids|].
  rewrite Hids. split; [apply NoDup_firstSeen|]. split.
  - intros k Hk. apply NoDup_count_occ'; [apply NoDup_firstSeen|].
    now apply in_firstSeen.
  - intros ev Hev. apply in_or_app. apply values_merge in Hev.
    destruct Hev as [Hev|Hev]; [left; now apply values_ofEntries | now right].
Qed.

(** *** One request, the thin wrappers and the mock data *)

Lemma isThrow_throws {A} (r : result A * St) :
  isThrow (fst r) = true -> exists e s1, r = (Throw e, s1).
Proof. destruct r as [[a|e] s1]; [discriminate|eauto]. Qed.

(** X1: [fetchJson] makes one request. It returns the body exactly when
    [fetch] resolves with a status from 200 to 299 and the body can be
    read; with any other status it throws "HTTP error! status: N" and
    does not look at the body; an exception of [fetch] or of
    [response.json()] is thrown on as it is. *)
Theorem fetchJson_settles (t : ty) (endpoint : jsstring) (s : St) :
  let url := API_BASE_URL ++ endpoint in
  let response := fst (fetch t url (world s)) in
  world (snd (fetchJson t endpoint s)) = snd (fetch t url (world s))
  /\ log (snd (fetchJson t endpoint s))
     = log s ++ [mkExchange url t (fst (fetchJson t endpoint s))]
  /\ (forall body,
        fst (fetchJson t endpoint s) = Ok body <->
        exists code, response = Response code (Ok body)
                     /\ (200 <= code <= 299)%N)
  /\ (forall code json,
        response = Response code json -> (code < 200 \/ 299 < code)%N ->
        fst (fetchJson t endpoint s)
        = Throw (Error (js "HTTP error! status: "
                          ++ numToString (Z.of_N code))))
  /\ (forall e, response = Rejected e ->
        fst (fetchJson t endpoint s) = Throw e)
  /\ (forall code e,
        response = Response code (Throw e) -> (200 <= code <= 299)%N ->
        fst (fetchJson t endpoint s) = Throw e).
Proof.
  intros url response. subst response.
  unfold ApiClient.fetchJson. fold url.
  destruct (fetch t url (world s)) as [response w']. cbn [fst snd world log].
  assert (Hok : forall code, ok code = true <-> (200 <= code <= 299)%N).
  { intros code. unfold ok. rewrite andb_true_iff, !N.leb_le. tauto. }
  repeat match goal with |- _ /\ _ => split end; try reflexivity.
  - intros body. split.
    + destruct response as [e|code json]; [discriminate|].
      destruct (ok code) eqn:E; cbn [negb]; [|discriminate].
      intros ->. exists code. split; [reflexivity | now apply Hok].
    + intros (code & -> & Hc). apply Hok in Hc. now rewrite Hc.
  - intros code json -> Hc.
    destruct (ok code) eqn:E; [apply Hok in E; lia | reflexivity].
  - now intros e ->.
  - intros code e -> Hc. apply Hok in Hc. now rewrite Hc.
Qed.


Lemma getAllArtists_first_throw (s s1 : St) (e : exn) :
  fetchJson TArtists (artistsTop 50) s = (Throw e, s1) ->
  getAllArtists s = (Ok mockArtists, s1).
Proof.
  intros H. unfold ApiClient.getAllArtists, artistLimits.
  now rewrite (try_catch_throw _ _ _ _ _ (artistsLoop_throw _ _ _ _ _ _ H)).
Qed.

Lemma getAllEvents_all_fail (s s' : St) :
  probeFails directLimits s s' -> getAllEvents s = (Ok mockEvents, s').
Proof.
  intros H. pose proof (directProbe_fails _ [] [] _ _ H) as E.
  rewrite app_nil_r in E. cbn [ApiClient.directProbe] in E.
  now rewrite (getAllEvents_probe _ _ _ E).
Qed.

Lemma probeFails_when_offline :
  (forall t endpoint s, isThrow (fst (fetchJson t endpoint s)) = true) ->
  forall limits (s : St), exists s', probeFails limits s s'.
Proof.
  intros Hfail. induction limits as [|limit rest IH]; intros s.
  - exists s. constructor.
  - destruct (isThrow_throws _ (Hfail TEvents (eventsTop limit) s))
      as (e & s1 & E).
    destruct (IH s1) as (s2 & H2). exists s2. econstructor; eauto.
Qed.

(** X3: With every request failing, the counts of [getStats] are the lengths
    of what [getAllArtists] and [getAllEvents] return. *)
Theorem offline_stats_agree :
  (forall t endpoint s, isThrow (fst (fetchJson t endpoint s)) = true) ->
  forall s0 s1 s2 : St,
  exists stats allArtists allEvents,
    fst (getStats s0) = Ok stats
    /\ fst (getAllArtists s1) = Ok allArtists
    /\ fst (getAllEvents s2) = Ok allEvents
    /\ artists stats = Z.of_nat (length allArtists)
    /\ events stats = Z.of_nat (length allEvents).
Proof.
  intros Hfail s0 s1 s2.
  destruct (isThrow_throws _ (Hfail TStats (js "/stats") s0)) as (e0 & t0 & E0).
  destruct (isThrow_throws _ (Hfail TArtists (artistsTop 50) s1))
    as (e1 & t1 & E1).
  destruct (probeFails_when_offline Hfail directLimits s2) as (t2 & E2).
  eexists _, mockArtists, mockEvents.
  unfold ApiClient.getStats. rewrite (try_catch_throw _ _ _ _ _ E0).
  rewrite (getAllArtists_first_throw _ _ _ E1), (getAllEvents_all_fail _ _ E2).
  repeat split.
Qed.

(** X4: When the request fails, every mock artist is found again under its
    own identifier, and so is every mock event. *)
Theorem mock_lookup (s : St) :
  (forall a, In a mockArtists ->
     isThrow (fst (fetchJson TArtist (js "/artists/" ++ Artist.id a) s)) = true ->
     fst (getArtist (Artist.id a) s) = Ok a)
  /\ (forall ev, In ev mockEvents ->
       isThrow (fst (fetchJson TEvent (js "/events/" ++ Event.id ev) s)) = true ->
       fst (getEvent (Event.id ev) s) = Ok ev).
Proof.
  split.
  - intros a Hin H. apply isThrow_throws in H. destruct H as (e & s1 & H).
    unfold ApiClient.getArtist. rewrite (try_catch_throw _ _ _ _ _ H).
    destruct Hin as [<-|[<-|[<-|[<-|[]]]]]; reflexivity.
  - intros ev Hin H. apply isThrow_throws in H. destruct H as (e & s1 & H).
    unfold ApiClient.getEvent. rewrite (try_catch_throw _ _ _ _ _ H).
    destruct Hin as [<-|[<-|[]]]; reflexivity.
Qed.

(** *** Search *)

Local Abbreviation artistMatches query :=
  (fun artist =>
     includes (toLowerCase (Artist.name artist)) (toLowerCase query)
     || includes (toLowerCase (Artist.genres artist)) (toLowerCase query)).
Local Abbreviation eventMatches query :=
  (fun event =>
     includes (toLowerCase (Event.name event)) (toLowerCase query)
     || includes (toLowerCase (Event.venue event)) (toLowerCase query)
     || includes (toLowerCase (Event.city event)) (toLowerCase query)).

Lemma searchArtists_fallback (query : jsstring) (s : St) :
  (forall q, encodeURIComponent query = Ok q ->
     isThrow (fst (fetchJson TArtists (js "/artists/search?q=" ++ q) s)) = true) ->
  exists s1,
    searchArtists query s = (Ok (filter (artistMatches query) mockArtists), s1)
    /\ (isThrow (encodeURIComponent query) = true -> s1 = s).
Proof.
  intros H. unfold ApiClient.searchArtists, try_catch, bind, call.
  destruct (encodeURIComponent query) as [q|e].
  - destruct (isThrow_throws _ (H q eq_refl)) as (e & s1 & ->).
    exists s1. split; [reflexivity|discriminate].
  - exists s. split; reflexivity.
Qed.

Lemma searchEvents_fallback (query : jsstring) (s : St) :
  (forall q, encodeURIComponent query = Ok q ->
     isThrow (fst (fetchJson TEvents (js "/events/search?q=" ++ q) s)) = true) ->
  exists s1,
    searchEvents query s = (Ok (filter (eventMatches query) mockEvents), s1)
    /\ (isThrow (encodeURIComponent query) = true -> s1 = s).
Proof.
  intros H. unfold ApiClient.searchEvents, try_catch, bind, call.
  destruct (encodeURIComponent query) as [q|e].
  - destruct (isThrow_throws _ (H q eq_refl)) as (e & s1 & ->).
    exists s1. split; [reflexivity|discriminate].
  - exists s. split; reflexivity.
Qed.

(** X5: When the search request fails, [searchArtists] returns the mock
    artists, in their order, whose lower-cased name or genres contain
    the lower-cased query, and [searchEvents] the mock events whose
    lower-cased name, venue or city contain it. *)
Theorem search_fallback_matches (query : jsstring) (s : St) :
  ((forall q, encodeURIComponent query = Ok q ->
      isThrow (fst (fetchJson TArtists (js "/artists/search?q=" ++ q) s)) = true) ->
   exists r,
     fst (searchArtists query s) = Ok r
     /\ (exists keep, r = filter keep mockArtists)
     /\ forall a, In a r <->
          In a mockArtists
          /\ (occursIn (toLowerCase query) (toLowerCase (Artist.name a))
              \/ occursIn (toLowerCase query) (toLowerCase (Artist.genres a))))
  /\ ((forall q, encodeURIComponent query = Ok q ->
         isThrow (fst (fetchJson TEvents (js "/events/search?q=" ++ q) s)) = true) ->
      exists r,
        fst (searchEvents query s) = Ok r
        /\ (exists keep, r = filter keep mockEvents)
        /\ forall ev, In ev r <->
             In ev mockEvents
             /\ (occursIn (toLowerCase query) (toLowerCase (Event.name ev))
                 \/ occursIn (toLowerCase query) (toLowerCase (Event.venue ev))
                 \/ occursIn (toLowerCase query) (toLowerCase (Event.city ev)))).
Proof.
  split; intros H.
  - destruct (searchArtists_fallback query s H) as (s1 & E & _).
    eexists. rewrite E. split; [reflexivity|]. split; [eauto|].
    intros a. rewrite filter_In, orb_true_iff, !includes_occursIn. tauto.
  - destruct (searchEvents_fallback query s H) as (s1 & E & _).
    eexists. rewrite E. split; [reflexivity|]. split; [eauto|].
    intros ev. rewrite filter_In, !orb_true_iff, !includes_occursIn. tauto.
Qed.

(** X6: A query that [encodeURIComponent] rejects is searched in the mock
    data without any request. *)
Theorem search_unencodable_query (query : jsstring) (s : St) (e : exn) :
  encodeURIComponent query = Throw e ->
  searchArtists query s = (Ok (filter (artistMatches query) mockArtists), s)
  /\ searchEvents query s = (Ok (filter (eventMatches query) mockEvents), s).
Proof.
  intros H. unfold ApiClient.searchArtists, ApiClient.searchEvents,
    try_catch, bind, call. rewrite H. split; reflexivity.
Qed.

(** X7: When the search request fails, a query whose lower-cased form is the
    empty string matches every mock item. *)
Theorem search_fallback_empty_query (query : jsstring) (s : St) :
  toLowerCase query = [] ->
  (forall t endpoint, isThrow (fst (fetchJson t endpoint s)) = true) ->
  fst (searchArtists query s) = Ok mockArtists
  /\ fst (searchEvents query s) = Ok mockEvents.
Proof.
  intros Hq Hfail.
  assert (Hall : forall {A} (f : A -> bool) (l : list A),
             (forall a, f a = true) -> filter f l = l).
  { intros A f l Hf. induction l as [|a l IH]; [reflexivity|].
    cbn [filter]. now rewrite Hf, IH. }
  assert (Ha : forall l : list Artist.t, filter (artistMatches query) l = l).
  { intros l. apply Hall. intros a. now rewrite Hq, includes_empty. }
  assert (He : forall l : list Event.t, filter (eventMatches query) l = l).
  { intros l. apply Hall. intros a. now rewrite Hq, includes_empty. }
  split.
  - destruct (searchArtists_fallback query s) as (s1 & E & _);
      [intros; apply Hfail|].
    rewrite E. cbn [fst]. now rewrite Ha.
  - destruct (searchEvents_fallback query s) as (s1 & E & _);
      [intros; apply Hfail|].
    rewrite E. cbn [fst]. now rewrite He.
Qed.

(** *** What the two enumerators request *)

Lemma last_default {A} (l : list A) (d d' : A) :
  l <> [] -> last l d = last l d'.
Proof.
  induction l as [|a l IH]; [contradiction|]. intros _.
  destruct l as [|b l]; [reflexivity|]. cbn [last] in *.
  apply IH. discriminate.
Qed.

Lemma artistsLoop_run (limits : list nat) :
  forall (last0 : list Artist.t) (s : St),
  exists (k : nat) (xs : list Exchange),
    k <= length limits
    /\ (limits <> [] -> 1 <= k)
    /\ log (snd (artistsLoop limits last0 s)) = log s ++ xs
    /\ map ex_url xs
       = map (fun limit => API_BASE_URL ++ artistsTop limit) (firstn k limits)
    /\ (isThrow (fst (artistsLoop limits last0 s)) = true
        \/ fst (artistsLoop limits last0 s)
           = Ok (deliveredArtists
                   (last xs (mkExchange [] TArtists (Ok last0))))).
Proof.
  induction limits as [|limit rest IH]; intros last0 s.
  - exists 0, []. cbn. rewrite app_nil_r. repeat split; auto. congruence.
  - destruct (fetchJson TArtists (artistsTop limit) s) as [[data|e] s1] eqn:E;
      pose proof (fetchJson_log _ _ _ _ _ E) as Hlog.
    + rewrite (artistsLoop_ok _ _ _ _ _ _ E).
      destruct (length data <? limit).
      * exists 1, [mkExchange (API_BASE_URL ++ artistsTop limit) TArtists
                     (Ok data)].
        cbn [length firstn map snd fst last deliveredArtists ex_url].
        repeat split; auto; lia.
      * destruct (IH data s1) as (k & xs & Hk & _ & Hxs & Hurl & Hres).
        exists (S k), (mkExchange (API_BASE_URL ++ artistsTop limit) TArtists
                        (Ok data) :: xs).
        cbn [length firstn map ex_url].
        repeat split; [lia | lia | now rewrite Hxs, Hlog, <- app_assoc
                      | now rewrite Hurl |].
        destruct Hres as [Hres|Hres]; [now left|]. right. rewrite Hres.
        destruct xs as [|x xs]; [reflexivity|].
        rewrite (last_default (x :: xs) _ (mkExchange [] TArtists (Ok last0)))
          by discriminate.
        reflexivity.
    + rewrite (artistsLoop_throw _ _ _ _ _ _ E).
      exists 1, [mkExchange (API_BASE_URL ++ artistsTop limit) TArtists
                   (Throw e)].
      cbn [length firstn map snd fst isThrow ex_url].
      repeat split; auto; lia.
Qed.

(** X8: [getAllArtists] requests the sizes 50, 100, 250, 500 in this order
    and stops after one to four of them; it returns the mock artists or
    the page its last request delivered, never a combination of pages. *)
Theorem getAllArtists_requests (s : St) :
  exists (k : nat) (xs : list Exchange),
    1 <= k <= 4
    /\ log (snd (getAllArtists s)) = log s ++ xs
    /\ map ex_url xs
       = map (fun limit => API_BASE_URL ++ artistsTop limit)
           (firstn k artistLimits)
    /\ (fst (getAllArtists s) = Ok mockArtists
        \/ fst (getAllArtists s)
           = Ok (deliveredArtists (last xs (mkExchange [] TArtists (Ok []))))).
Proof.
  destruct (artistsLoop_run artistLimits [] s)
    as (k & xs & Hk & Hk1 & Hlog & Hurl & Hres).
  exists k, xs. unfold ApiClient.getAllArtists, try_catch.
  destruct (artistsLoop artistLimits [] s) as [[data|e] s1];
    cbn [fst snd isThrow] in *.
  - repeat split; auto.
    + apply Hk1. discriminate.
    + destruct Hres as [Hres|Hres]; [discriminate | now right].
  - repeat split; auto. apply Hk1. discriminate.
Qed.

Lemma pageLoop_count strat pageSize indices :
  forall coll success (s : St) coll' success' s',
    pageLoop strat pageSize indices coll success s
    = (Ok (coll', success'), s') ->
    length (log s) <= length (log s') <= length (log s) + length indices
    /\ (success = true -> success' = true)
    /\ (success' = false -> length (log s') <= length (log s) + 1).
Proof.
  induction indices as [|i rest IH]; intros coll success s coll' success' s' H.
  - cbn in H. injection H as <- <- <-. cbn [length]. repeat split; auto; lia.
  - rewrite pageLoop_cons in H.
    destruct (pageStep_spec strat pageSize i coll success s)
      as (x & s1 & Hlog & _ & Hstep).
    cbv zeta in Hstep. rewrite Hstep in H. clear Hstep.
    assert (Hlen : length (log s1) = length (log s) + 1)
      by (rewrite Hlog, length_app; reflexivity).
    destruct (JsMap.size coll <? JsMap.size (merge coll (delivered x))) eqn:G;
      cbn [andb] in H.
    + rewrite orb_true_r in H.
      destruct (negb (length (delivered x) <? pageSize)
                && negb (maxTotal <=? JsMap.size (merge coll (delivered x)))).
      * apply IH in H. destruct H as (H1 & H2 & _).
        rewrite (H2 eq_refl). cbn [length].
        repeat split; auto; try discriminate; lia.
      * injection H as <- <- <-. cbn [length].
        repeat split; auto; try discriminate; lia.
    + rewrite orb_false_r in H. injection H as <- <- <-. cbn [length].
      repeat split; auto; lia.
Qed.

Lemma tryStrategies_count pageSize strats :
  forall coll (s : St) r s',
    tryStrategies strats pageSize coll s = (Ok r, s') ->
    length (log s) <= length (log s') <= length (log s) + (length strats + 8)
    /\ (strats = [] -> length (log s') = length (log s)).
Proof.
  induction strats as [|strat rest IH]; intros coll s r s' H.
  - cbn in H. injection H as <- <-. split; [lia|reflexivity].
  - cbn [ApiClient.tryStrategies] in H. unfold bind in H.
    destruct (pageLoop_returns strat pageSize pageIndices coll false s)
      as ([coll1 success] & s1 & E).
    rewrite E in H. apply pageLoop_count in E.
    destruct E as (E1 & _ & E2). change (length pageIndices) with 9 in E1.
    split; [|discriminate]. cbn [length]. destruct success.
    + injection H as <- <-. lia.
    + specialize (E2 eq_refl). apply IH in H. destruct H as (H1 & H2).
      destruct rest as [|strat' rest]; [rewrite (H2 eq_refl); cbn; lia|].
      cbn [length] in *. lia.
Qed.

Lemma directProbe_count (limits : list nat) :
  forall base (s : St) p s',
    directProbe limits base s = (Ok p, s') ->
    length (log s) <= length (log s') <= length (log s) + length limits
    /\ (limits <> [] -> length (log s) + 1 <= length (log s')).
Proof.
  induction limits as [|limit rest IH]; intros base s p s' H.
  - cbn in H. injection H as <- <-. split; [cbn; lia | congruence].
  - destruct (fetchJson TEvents (eventsTop limit) s) as [[data|e] s1] eqn:E;
      pose proof (fetchJson_log _ _ _ _ _ E) as Hlog;
      apply (f_equal (@length Exchange)) in Hlog;
      rewrite length_app in Hlog; cbn [length] in Hlog |- *.
    + rewrite (directProbe_ok _ _ _ _ _ _ E) in H. injection H as <- <-.
      split; intros; lia.
    + rewrite (directProbe_throw _ _ _ _ _ _ E) in H. apply IH in H.
      destruct H as (H1 & _). split; intros; lia.
Qed.

Lemma getAllEvents_log_prefix (s : St) :
  exists xs, log (snd (getAllEvents s)) = log s ++ xs.
Proof.
  destruct (directProbe_log directLimits [] s)
    as (p & s1 & xs & Hrun & Hlog & _).
  rewrite (getAllEvents_probe _ _ _ Hrun).
  destruct p as [data|[|e base]].
  - exists xs. exact Hlog.
  - exists xs. exact Hlog.
  - destruct (paginate_inv (e :: base) s1) as (ys & s2 & Hpag & Hlog2 & _);
      [discriminate|].
    rewrite Hpag. exists (xs ++ ys). cbn [snd].
    now rewrite Hlog2, Hlog, <- app_assoc.
Qed.

(** X9: One call of [getAllEvents] makes at least one request and at most
    sixteen: five probes, one page for each of two schemes that make no
    progress and nine pages of a third. *)
Theorem getAllEvents_request_bound (s : St) :
  exists xs,
    log (snd (getAllEvents s)) = log s ++ xs
    /\ 1 <= length xs <= 16.
Proof.
  destruct (getAllEvents_log_prefix s) as (xs & Hxs). exists xs.
  split; [exact Hxs|].
  apply (f_equal (@length Exchange)) in Hxs. rewrite length_app in Hxs.
  destruct (directProbe_returns directLimits [] s) as (p & s1 & Hrun).
  rewrite (getAllEvents_probe _ _ _ Hrun) in Hxs.
  apply directProbe_count in Hrun. destruct Hrun as (H1 & H2).
  specialize (H2 ltac:(discriminate)). change (length directLimits) with 5 in H1.
  destruct H1 as [_ H1].
  destruct p as [data|base]; cbn [snd] in Hxs; [lia|].
  unfold ApiClient.paginate in Hxs.
  destruct (length base =? 0); [cbn [ret snd] in Hxs; lia|].
  destruct (maxTotal <=? _); [cbn [ret snd] in Hxs; lia|].
  unfold bind in Hxs.
  destruct (tryStrategies_returns (strategies (pageSizeOf base))
              (pageSizeOf base)
              (JsMap.ofEntries (map (fun e => (Event.id e, e)) base)) s1)
    as (r & s2 & E).
  rewrite E in Hxs. cbn [ret snd] in Hxs.
  apply tryStrategies_count in E. destruct E as (E & _).
  change (length (strategies (pageSizeOf base))) with 3 in E. lia.
Qed.

Lemma directProbe_base (limits : list nat) :
  forall base0 (s : St) base s',
    directProbe limits base0 s = (Ok (Base base), s') ->
    base = base0
    \/ exists limit, In limit limits /\ limit <= length base.
Proof.
  induction limits as [|limit rest IH]; intros base0 s base s' H.
  - cbn in H. injection H as <- _. now left.
  - destruct (fetchJson TEvents (eventsTop limit) s) as [[data|e] s1] eqn:E.
    + rewrite (directProbe_ok _ _ _ _ _ _ E) in H.
      destruct (length data <? limit) eqn:L; [discriminate|].
      injection H as <- _. right. exists limit.
      apply Nat.ltb_ge in L. split; [now left|exact L].
    + rewrite (directProbe_throw _ _ _ _ _ _ E) in H. apply IH in H.
      destruct H as [H|(l & Hl & Hlen)]; [now left|].
      right. exists l. split; [now right|exact Hlen].
Qed.

(** X10: When the first loop of [getAllEvents] ends with a base page, that
    page has at least 200 events and the page size of the pagination is
    200: the alternative of [Math.min(base.length, 200) || 200] is never
    taken. *)
Theorem pagination_page_size (s s1 : St) (base : list Event.t) :
  directProbe directLimits [] s = (Ok (Base base), s1) ->
  base <> [] ->
  200 <= length base /\ pageSizeOf base = 200.
Proof.
  intros H Hbase. apply directProbe_base in H.
  destruct H as [H|(limit & Hin & Hlen)]; [contradiction|].
  assert (H200 : 200 <= length base).
  { unfold directLimits in Hin.
    destruct Hin as [<-|[<-|[<-|[<-|[<-|[]]]]]]; lia. }
  split; [exact H200|]. unfold pageSizeOf.
  now rewrite Nat.min_r by exact H200.
Qed.

Lemma directProbe_returned (limits : list nat) :
  forall base0 (s : St) data s',
    directProbe limits base0 s = (Ok (Returned data), s') ->
    exists limit s0,
      In limit limits
      /\ fetchJson TEvents (eventsTop limit) s0 = (Ok data, s')
      /\ length data < limit.
Proof.
  induction limits as [|limit rest IH]; intros base0 s data s' H.
  - discriminate.
  - destruct (fetchJson TEvents (eventsTop limit) s) as [[d|e] s1] eqn:E.
    + rewrite (directProbe_ok _ _ _ _ _ _ E) in H.
      destruct (length d <? limit) eqn:L; [|discriminate].
      injection H as <- <-. exists limit, s. apply Nat.ltb_lt in L.
      split; [now left|]. split; assumption.
    + rewrite (directProbe_throw _ _ _ _ _ _ E) in H. apply IH in H.
      destruct H as (l & s0 & Hl & H). exists l, s0. split; [now right|exact H].
Qed.

Lemma ofEntries_nonempty (base : list Event.t) :
  base <> [] ->
  1 <= JsMap.size (JsMap.ofEntries (map (fun e => (Event.id e, e)) base)).
Proof.
  intros H. rewrite size_keys, keys_ofEntries.
  destruct base as [|e base]; [contradiction|]. cbn. lia.
Qed.

(** X11: [getAllEvents] returns an empty sequence only when the request it
    ended with was a probe that delivered an empty array. *)
Theorem getAllEvents_empty_result (s : St) :
  fst (getAllEvents s) = Ok [] ->
  exists limit s0,
    In limit directLimits
    /\ fetchJson TEvents (eventsTop limit) s0 = (Ok [], snd (getAllEvents s)).
Proof.
  intros H.
  destruct (directProbe_returns directLimits [] s) as (p & s1 & Hrun).
  rewrite (getAllEvents_probe _ _ _ Hrun) in H |- *.
  destruct p as [data|[|e base]].
  - cbn [fst] in H. injection H as ->. apply directProbe_returned in Hrun.
    destruct Hrun as (limit & s0 & Hin & Hf & _). now exists limit, s0.
  - discriminate.
  - destruct (paginate_inv (e :: base) s1) as (ys & s2 & Hpag & _ & _);
      [discriminate|].
    rewrite Hpag in H. cbn [fst] in H. injection H as H.
    apply (f_equal (@length Event.t)) in H.
    unfold JsMap.values in H. rewrite length_map in H.
    pose proof (size_merge (concat (map delivered ys))
                  (JsMap.ofEntries (entries (e :: base)))) as Hm.
    pose proof (ofEntries_nonempty (e :: base) ltac:(discriminate)) as Hn.
    unfold JsMap.size in Hm, Hn.
    change (length (merge (JsMap.ofEntries (entries (e :: base)))
                      (concat (map delivered ys))) = 0) in H.
    exfalso. lia.
Qed.

(** *** A server that answers every request with the same list *)

Lemma pageLoop_seen_page strat pageSize i rest coll success (s s1 : St) chunk :
  fetchJson TEvents (buildUrl strat i) s = (Ok chunk, s1) ->
  (forall ev, In ev chunk -> JsMap.has coll (Event.id ev) = true) ->
  pageLoop strat pageSize (i :: rest) coll success s = (Ok (coll, success), s1).
Proof.
  intros Hfetch Hseen. rewrite pageLoop_cons.
  unfold ApiClient.pageStep, try_catch, bind. rewrite Hfetch.
  rewrite (merge_seen _ _ Hseen).
  destruct (length chunk =? 0); [reflexivity|].
  now rewrite Nat.eqb_refl.
Qed.

Lemma has_ofEntries (base : list Event.t) (ev : Event.t) :
  In ev base ->
  JsMap.has (JsMap.ofEntries (map (fun e => (Event.id e, e)) base))
    (Event.id ev) = true.
Proof.
  intros H. rewrite has_existsb, keys_ofEntries, existsb_firstSeen.
  apply existsb_exists. exists (Event.id ev).
  split; [now apply in_map | apply eqb_refl].
Qed.

Lemma tryStrategies_all_seen (data : list Event.t) :
  (forall endpoint (s : St), exists s1,
      fetchJson TEvents endpoint s = (Ok data, s1)
      /\ length (log s1) = length (log s) + 1) ->
  forall strats pageSize coll (s : St),
    (forall ev, In ev data -> JsMap.has coll (Event.id ev) = true) ->
    exists s',
      tryStrategies strats pageSize coll s = (Ok (coll, None), s')
      /\ length (log s') = length (log s) + length strats.
Proof.
  intros Hfetch. induction strats as [|strat rest IH];
    intros pageSize coll s Hseen.
  - exists s. cbn. split; [reflexivity|lia].
  - cbn [ApiClient.tryStrategies]. unfold bind.
    change pageIndices with (1 :: seq 2 8).
    destruct (Hfetch (buildUrl strat 1) s) as (s1 & E1 & L1).
    rewrite (pageLoop_seen_page _ _ _ _ _ _ _ _ _ E1 Hseen).
    destruct (IH pageSize coll s1 Hseen) as (s' & E & L).
    exists s'. split; [exact E|]. cbn [length]. lia.
Qed.

(** X14: When every events request delivers the same list [data], whatever
    its parameters: a list shorter than 500 is returned as it is after
    one request; otherwise the result is the list with one item for each
    identifier, after one request when these are 1000 or more and after
    four (the probe and one page for each scheme) when they are fewer. *)
Theorem same_list_for_every_request (data : list Event.t) :
  (forall endpoint s, fst (fetchJson TEvents endpoint s) = Ok data) ->
  forall s : St,
    let distinct :=
      JsMap.ofEntries (map (fun e => (Event.id e, e)) data) in
    (length data < 500 ->
     fst (getAllEvents s) = Ok data
     /\ length (log (snd (getAllEvents s))) = length (log s) + 1)
    /\ (500 <= length data ->
        fst (getAllEvents s) = Ok (JsMap.values distinct)
        /\ length (log (snd (getAllEvents s)))
           = length (log s)
             + if maxTotal <=? JsMap.size distinct then 1 else 4).
Proof.
  intros Hsame s distinct.
  assert (Hfetch : forall endpoint (s : St), exists s1,
             fetchJson TEvents endpoint s = (Ok data, s1)
             /\ length (log s1) = length (log s) + 1).
  { intros endpoint s0. specialize (Hsame endpoint s0).
    destruct (fetchJson TEvents endpoint s0) as [r s1] eqn:E.
    cbn [fst] in Hsame. subst r. exists s1. split; [reflexivity|].
    rewrite (fetchJson_log _ _ _ _ _ E), length_app. reflexivity. }
  destruct (Hfetch (eventsTop 500) s) as (s1 & E1 & L1).
  pose proof (directProbe_ok 500 [400; 300; 250; 200] [] _ _ _ E1) as Hprobe.
  fold directLimits in Hprobe.
  split; intros Hlen.
  - apply Nat.ltb_lt in Hlen. rewrite Hlen in Hprobe.
    rewrite (getAllEvents_probe _ _ _ Hprobe). now split.
  - apply Nat.ltb_ge in Hlen. rewrite Hlen in Hprobe.
    rewrite (getAllEvents_probe _ _ _ Hprobe).
    unfold ApiClient.paginate. apply Nat.ltb_ge in Hlen.
    destruct data as [|e0 data']; [cbn in Hlen; lia|].
    set (data := e0 :: data') in *.
    change (length data =? 0) with false. cbv iota. fold distinct.
    destruct (maxTotal <=? JsMap.size distinct); [now split|].
    assert (Hseen : forall ev, In ev data ->
               JsMap.has distinct (Event.id ev) = true)
      by (intros ev Hev; now apply has_ofEntries).
    unfold bind.
    destruct (tryStrategies_all_seen data Hfetch
                (strategies (pageSizeOf data)) (pageSizeOf data) distinct s1
                Hseen) as (s2 & E2 & L2).
    cbv beta. rewrite E2. cbn [ret fst snd length strategies] in *.
    split; [reflexivity|lia].
Qed.

(** *** The event list component *)

Local Abbreviation handleSearch :=
  (EventList.handleSearch W fetch encodeURIComponent toLowerCase).
Local Abbreviation loadEvents := (EventList.loadEvents W fetch).

(** X18: [handleSearch] of the event list. For a blank query it makes no
    request and shows all loaded events. For any other query it shows
    what [searchEvents] returns, which does not depend on the loaded
    events, and leaves [searchLoading] off: its own [catch], the filter
    over the loaded events, never runs. It never throws. *)
Theorem handleSearch_outcome (query : jsstring) (s : St)
    (c : EventList.state) :
  (forallb isWhiteSpace query = true ->
   handleSearch query (s, c)
   = (Ok tt,
      (s, EventList.setFilteredEvents (EventList.events c)
            (EventList.setSearchQuery query c))))
  /\ (forallb isWhiteSpace query = false ->
      exists r s',
        searchEvents query s = (Ok r, s')
        /\ handleSearch query (s, c)
           = (Ok tt,
              (s', EventList.setSearchLoading false
                     (EventList.setFilteredEvents r
                        (EventList.setSearchLoading true
                           (EventList.setSearchQuery query c)))))).
Proof.
  unfold EventList.handleSearch, EventList.current, EventList.update, bind.
  cbn [fst snd]. split; intros Hq.
  - apply trim_nil in Hq. now rewrite Hq.
  - destruct (trim query) as [|x t] eqn:Et.
    { apply trim_nil in Et. congruence. }
    destruct (try_catch_returns
                (bind (call (encodeURIComponent query))
                   (fun q => fetchJson TEvents (js "/events/search?q=" ++ q)))
                (fun _ => filter
                   (fun event =>
                      includes (toLowerCase (Event.name event))
                        (toLowerCase query)
                      || includes (toLowerCase (Event.venue event))
                           (toLowerCase query)
                      || includes (toLowerCase (Event.city event))
                           (toLowerCase query)) mockEvents) s)
      as (r & s' & E).
    change (searchEvents query s = (Ok r, s')) in E.
    exists r, s'. split; [exact E|].
    unfold EventList.try_finally, try_catch, EventList.api. cbn [fst snd].
    rewrite E. reflexivity.
Qed.

(** X19: [loadEvents] of the event list never throws and its [catch] never
    runs: it calls [checkHealth], then [getAllEvents], shows the events
    returned both as loaded and as filtered, reports the backend
    connected exactly when the status of the health check is
    "connected", and ends with [loading] off. *)
Theorem loadEvents_outcome (s : St) (c : EventList.state) :
  exists health s1 data s2,
    checkHealth s = (Ok health, s1)
    /\ getAllEvents s1 = (Ok data, s2)
    /\ loadEvents (s, c)
       = (Ok tt,
          (s2, EventList.mkState data data (EventList.searchQuery c) false
                 (EventList.searchLoading c)
                 (eqb (status health) (js "connected")))).
Proof.
  destruct (try_catch_returns
              (bind (fetchJson THealth (js "/health"))
                 (fun response =>
                    ret (mkHealth (js "connected")
                           (orElse (body_message response)
                              (js "Backend is healthy")))))
              (fun _ => disconnected) s) as (health & s1 & E1).
  change (checkHealth s = (Ok health, s1)) in E1.
  destruct (directProbe_returns directLimits [] s1) as (p & s1' & Hp).
  pose proof (getAllEvents_probe _ _ _ Hp) as E2.
  assert (Hret : exists data s2, getAllEvents s1 = (Ok data, s2)).
  { rewrite E2. destruct p as [data|base]; [eauto|].
    destruct (paginate_returns base s1') as (r & s2 & ->). eauto. }
  destruct Hret as (data & s2 & E3).
  exists health, s1, data, s2. split; [exact E1|]. split; [exact E3|].
  unfold EventList.loadEvents, EventList.try_finally, try_catch, bind,
    EventList.update, EventList.api.
  cbn [fst snd]. rewrite E1. cbn [fst snd]. rewrite E3. reflexivity.
Qed.

End ClientProperties.

(** ** The properties at the servers of the examples *)

Section Examples.

Import Scenario.

(** The health probe at a healthy backend with and without a message,
    at a backend that answers 503, and with the network down. *)
Example checkHealth_examples :
  fst (checkHealth unit
         (healthy 200 (mkHealthBody (Some (js "ok")) (Some (js "up"))))
         (start tt))
  = Ok (mkHealth (js "connected") (js "up"))
  /\ fst (checkHealth unit (healthy 200 (mkHealthBody (Some (js "ok")) None))
            (start tt))
     = Ok (mkHealth (js "connected") (js "Backend is healthy"))
  /\ fst (checkHealth unit
            (healthy 503 (mkHealthBody (Some (js "ok")) (Some (js "up"))))
            (start tt))
     = Ok disconnected
  /\ fst (checkHealth unit offline (start tt)) = Ok disconnected.
Proof. repeat split; reflexivity. Qed.

(** C7 at a network that refuses every connection. *)
Lemma offline_fallback_witness :
  (forall t endpoint s,
      isThrow (fst (fetchJson unit offline t endpoint s)) = true)
  /\ fst (getAllArtists unit offline (start tt)) = Ok mockArtists
  /\ fst (getAllEvents unit offline (start tt)) = Ok mockEvents
  /\ map Artist.id mockArtists = [js "1"; js "2"; js "3"; js "4"]
  /\ map Event.id mockEvents = [js "1"; js "2"].
Proof.
  split; [intros; reflexivity|].
  apply (offline_fallback unit offline). intros; reflexivity.
Defined.



(** C1 refuted: a server that honours every limit leads [getAllEvents]
    to return 1100 events, after four requests. *)
Lemma maxTotal_exceeded_counterexample :
  option_map (@length Event.t)
    (value (fst (getAllEvents nat truncating (start 0)))) = Some 1100
  /\ maxTotal = 1000
  /\ map ex_url (log (snd (getAllEvents nat truncating (start 0))))
     = map (fun e => API_BASE_URL ++ js e)
         [ "/events/top?limit=500"; "/events/top?limit=200&offset=200";
           "/events/top?limit=200&offset=400";
           "/events/top?limit=200&offset=600" ]%string.
Proof. repeat split; vm_compute; reflexivity. Qed.

(** C1, as the code has it, at the same server. *)
Lemma maxTotal_checked_after_merge_witness :
  exists r s' xs,
    getAllEvents nat truncating (start 0) = (Ok r, s')
    /\ log s' = log (start 0) ++ xs
    /\ length r
       < maxTotal + list_max (map (fun x => length (delivered x)) xs).
Proof.
  exact (proj1 (maxTotal_checked_after_merge nat truncating) (start 0)).
Defined.

(** C3 refuted for [getAllArtists]: its sizes ascend; the first request
    throws, the mock artists are returned after this one request, and
    the request for the next size would have been answered. *)
Lemma artists_probe_counterexample :
  artistLimits = [50; 100; 250; 500]
  /\ isThrow (fst (fetchJson nat failsOnce TArtists
                     (js "/artists/top?limit=50") (start 0))) = true
  /\ fst (getAllArtists nat failsOnce (start 0)) = Ok mockArtists
  /\ map ex_url (log (snd (getAllArtists nat failsOnce (start 0))))
     = [API_BASE_URL ++ js "/artists/top?limit=50"]
  /\ fst (fetchJson nat failsOnce TArtists (js "/artists/top?limit=100")
            (snd (getAllArtists nat failsOnce (start 0))))
     = Ok (artistsFrom 0 3).
Proof. repeat split; reflexivity. Qed.

(** C3, as the code has it, at the same server and at the refused
    network. *)
Lemma probe_policy_witness :
  fst (getAllArtists nat failsOnce (start 0)) = Ok mockArtists
  /\ fst (getAllEvents unit offline (start tt)) = Ok mockEvents.
Proof.
  destruct (probe_policy nat failsOnce) as (_ & _ & _ & _ & _ & HA).
  destruct (probe_policy unit offline) as (_ & _ & HE & _).
  split.
  - edestruct (HA [] 50 [100; 250; 500] (start 0)) as [R _];
      [reflexivity | apply fullPages_nil | reflexivity |].
    rewrite R. reflexivity.
  - erewrite HE; [reflexivity|].
    repeat (eapply probeFails_cons; [reflexivity|]). apply probeFails_nil.
Defined.

(** C4 at a server that times out once and then has three events, and
    at a server with sixty artists. *)
Lemma short_page_returned_witness :
  fst (getAllEvents nat slowStart (start 0)) = Ok (eventsFrom 0 3)
  /\ length (log (snd (getAllEvents nat slowStart (start 0)))) = 2
  /\ fst (getAllArtists nat sixtyArtists (start 0)) = Ok (artistsFrom 0 60)
  /\ length (log (snd (getAllArtists nat sixtyArtists (start 0)))) = 2.
Proof.
  destruct (short_page_returned nat slowStart) as [HE _].
  destruct (short_page_returned nat sixtyArtists) as [_ HA].
  edestruct (HE [500] 400 [300; 250; 200] (start 0)) as [RE LE];
    [ reflexivity
    | eapply probeFails_cons; [reflexivity | apply probeFails_nil]
    | reflexivity
    | vm_compute; lia
    | ].
  edestruct (HA [50] 100 [250; 500] (start 0)) as [RA LA];
    [ reflexivity
    | eapply fullPages_cons; [reflexivity | vm_compute; lia | apply fullPages_nil]
    | reflexivity
    | vm_compute; lia
    | ].
  rewrite RE, RA. cbn [fst snd]. rewrite LE, LA. repeat split.
Defined.


(** C6 at a server whose second page overlaps the first. *)
Lemma merged_pages_first_seen_witness :
  exists r,
    fst (getAllEvents nat overlapping (start 0)) = Ok r
    /\ NoDup (eventIds r)
    /\ exists merged,
         eventIds r = firstSeen (eventIds merged)
         /\ exists later, merged = eventsFrom 0 200 ++ later.
Proof.
  edestruct (merged_pages_first_seen nat overlapping (start 0))
    as (r & s2 & xs & Hrun & _ & Hbase & Hids & Hnodup & _);
    [ vm_compute; reflexivity | discriminate | ].
  exists r. rewrite Hrun. split; [reflexivity|]. split; [exact Hnodup|].
  exists (concat (map delivered xs)). split; [exact Hids|exact Hbase].
Defined.

(** Idempotence of the sanitizer at a padded host name. *)
Lemma normalizeExternalUrl_idempotent_witness :
  normalizeExternalUrl (Some (js "  example.com ")) = Some (js "https://example.com")
  /\ normalizeExternalUrl (Some (js "https://example.com"))
     = Some (js "https://example.com").
Proof.
  split; [reflexivity|].
  apply (normalizeExternalUrl_idempotent (Some (js "  example.com "))).
  reflexivity.
Defined.

(** The inline link and the sanitizer on four texts. *)
Example eventHref_examples :
  eventHref (js "javascript:alert(1)") = js "https://javascript:alert(1)"
  /\ normalizeExternalUrl (Some (js "javascript:alert(1)")) = None
  /\ eventHref (js "HTTP://x.com") = js "https://HTTP://x.com"
  /\ normalizeExternalUrl (Some (js "HTTP://x.com")) = Some (js "HTTP://x.com")
  /\ eventHref (js " example.com ") = js "https://example.com"
  /\ eventHref (js "   ") = js "#".
Proof. repeat split; reflexivity. Qed.


(** The counts of the statistics with the network down. *)
Lemma offline_stats_agree_witness :
  exists stats allArtists allEvents,
    fst (getStats unit offline (start tt)) = Ok stats
    /\ fst (getAllArtists unit offline (start tt)) = Ok allArtists
    /\ fst (getAllEvents unit offline (start tt)) = Ok allEvents
    /\ artists stats = Z.of_nat (length allArtists)
    /\ events stats = Z.of_nat (length allEvents).
Proof.
  apply (offline_stats_agree unit offline). intros; reflexivity.
Defined.

(** The third mock artist and the second mock event, looked up with the
    network down. *)
Lemma mock_lookup_witness :
  fst (getArtist unit offline (js "3") (start tt)) = Ok (nth 2 mockArtists (artist 0))
  /\ fst (getEvent unit offline (js "2") (start tt)) = Ok (nth 1 mockEvents (event 0)).
Proof.
  destruct (mock_lookup unit offline (start tt)) as [HA HE]. split.
  - apply (HA (nth 2 mockArtists (artist 0))); [cbn; tauto | reflexivity].
  - apply (HE (nth 1 mockEvents (event 0))); [cbn; tauto | reflexivity].
Defined.

(** Searching "ROCK" with the network down: three of the four mock
    artists. *)
Lemma search_fallback_matches_witness :
  exists r,
    fst (searchArtists unit offline encodeAscii lowerAscii (js "ROCK") (start tt))
    = Ok r
    /\ map Artist.id r = [js "1"; js "2"; js "3"].
Proof.
  destruct (proj1 (search_fallback_matches unit offline encodeAscii lowerAscii
                     (js "ROCK") (start tt)))
    as (r & Hr & _); [intros; reflexivity|].
  exists r. split; [exact Hr|].
  assert (E : Ok r = Ok (firstn 3 mockArtists)) by (rewrite <- Hr; reflexivity).
  injection E as ->. reflexivity.
Defined.

(** A query with a lone surrogate is searched without a request. *)
Lemma search_unencodable_query_witness :
  encodeStrict [55357%N] = Throw URIError
  /\ log (snd (searchEvents unit offline encodeStrict lowerAscii [55357%N]
                 (start tt))) = []
  /\ fst (searchEvents unit offline encodeStrict lowerAscii [55357%N]
            (start tt)) = Ok [].
Proof.
  split; [reflexivity|].
  destruct (search_unencodable_query unit offline encodeStrict lowerAscii
              [55357%N] (start tt) URIError eq_refl) as [_ E].
  rewrite E. split; reflexivity.
Defined.

(** The empty query with the network down. *)
Lemma search_fallback_empty_query_witness :
  fst (searchArtists unit offline encodeAscii lowerAscii [] (start tt))
  = Ok mockArtists
  /\ fst (searchEvents unit offline encodeAscii lowerAscii [] (start tt))
     = Ok mockEvents.
Proof.
  apply (search_fallback_empty_query unit offline encodeAscii lowerAscii []);
    [reflexivity | intros; reflexivity].
Defined.

(** The bound of sixteen requests is reached. *)
Example sixteen_requests :
  length (log (snd (getAllEvents nat slowlyGrowing (start 0)))) = 16
  /\ option_map (@length Event.t)
       (value (fst (getAllEvents nat slowlyGrowing (start 0)))) = Some 209.
Proof. split; vm_compute; reflexivity. Qed.

(** The page size at a server whose base page has 200 events. *)
Lemma pagination_page_size_witness :
  exists base,
    fst (directProbe nat overlapping directLimits [] (start 0)) = Ok (Base base)
    /\ 200 <= length base
    /\ pageSizeOf base = 200.
Proof.
  exists (eventsFrom 0 200). split; [vm_compute; reflexivity|].
  eapply (pagination_page_size nat overlapping (start 0));
    [vm_compute; reflexivity | discriminate].
Defined.

(** An empty result at a server without events. *)
Lemma getAllEvents_empty_result_witness :
  fst (getAllEvents nat emptyServer (start 0)) = Ok []
  /\ exists limit s0,
       In limit directLimits
       /\ fetchJson nat emptyServer TEvents
            (js "/events/top?limit=" ++ natToString limit) s0
          = (Ok [], snd (getAllEvents nat emptyServer (start 0))).
Proof.
  split; [reflexivity|].
  apply (getAllEvents_empty_result nat emptyServer (start 0)). reflexivity.
Defined.

(** A server that always answers with the same three events. *)
Lemma same_list_for_every_request_witness :
  fst (getAllEvents unit (constant (eventsFrom 0 3)) (start tt))
  = Ok (eventsFrom 0 3)
  /\ length (log (snd (getAllEvents unit (constant (eventsFrom 0 3))
                         (start tt)))) = 1.
Proof.
  apply (same_list_for_every_request unit (constant (eventsFrom 0 3))
           (eventsFrom 0 3)).
  - intros; reflexivity.
  - vm_compute. lia.
Defined.

(** A blank query in the event list with the network down. *)
Lemma handleSearch_outcome_witness :
  EventList.handleSearch unit offline encodeAscii lowerAscii (js "  ")
    (start tt, EventList.setEvents (eventsFrom 0 3) EventList.initial)
  = (Ok tt,
     (start tt,
      EventList.setFilteredEvents (eventsFrom 0 3)
        (EventList.setSearchQuery (js "  ")
           (EventList.setEvents (eventsFrom 0 3) EventList.initial)))).
Proof.
  apply (proj1 (handleSearch_outcome unit offline encodeAscii lowerAscii
                  (js "  ") (start tt)
                  (EventList.setEvents (eventsFrom 0 3) EventList.initial))).
  reflexivity.
Defined.

End Examples.
